(** * Two-compartment cells and random populations (NEURON tutorial scripts)

    A shallow embedding of [tutorial_3_solution.py], [tutorial_4a.py] and
    [tutorial_4b.py].  The scripts only configure objects owned by the
    simulation engine ([h]), by matplotlib ([plt]) and by numpy's global
    generator, so the embedding is a state-and-exception monad over a
    world that holds those objects:

    - engine objects live in stores indexed by allocation order; a Python
      reference to one of them is its index, so two references to the same
      object alias the same store entry.  A store is the history of what
      was allocated: an object that no attribute refers to any more stays
      in it, and what a cell or a population holds is what its attributes
      refer to;
    - instances of the Python class [HHCell] live in a heap of their own;
    - numeric literals are kept as the exact decimal rationals the source
      writes ([0.12] is [0.12%Q]); binary rounding is not modelled;
    - the generator behind [np.random] and the engine's integration loop
      are external: they are taken as an interface ([NumpyRandom],
      [Integrator]) and never unfolded. *)

From Stdlib Require Import QArith ZArith Lia.
From stdpp Require Import gmap strings list pretty.

Set Default Proof Using "Type".

(** ** External collaborators *)

(** numpy's legacy global generator: [np.random.seed] and the unit-interval
    draw that [np.random.uniform] scales. *)
Class NumpyRandom := {
  RandomState : Type;
  seed : Z → RandomState;
  random_sample : RandomState → Q * RandomState
}.

(** The half-open unit interval every draw falls in. *)
Definition unit_interval `{NumpyRandom} : Prop :=
  ∀ s, (0 <= (random_sample s).1)%Q ∧ ((random_sample s).1 < 1)%Q.

(** ** Engine objects *)

(** [sec(x)]: the segment of a section that holds the position [x],
    written as the section and the position the code passed. *)
Record Segment := Seg { seg_sec : nat; seg_x : Q }.

(** [seg._ref_v] and [h._ref_t]. *)
Inductive Ref :=
| ref_v (seg : Segment)
| ref_t.

(** A section: its name, the mechanisms inserted so far, and the attributes
    the script has assigned ([sec.Ra = 100] is an entry ["Ra" ↦ 100]). *)
Record Section := mkSection {
  sec_name : string;
  sec_mechs : list string;
  sec_attrs : gmap string Q
}.

(** One call [child.connect(parent(x))]; the engine attaches the child by
    its 0 end unless told otherwise. *)
Record Connect := mkConnect {
  child : nat;
  child_end : Q;
  parent : Segment
}.

Inductive PPKind := IClamp | ExpSyn.

(** A point process made on a segment, with the attributes assigned to
    it.  [pp_seg] is the segment object the constructor was given, as the
    code named it; at which node of that segment the engine keeps the
    process (the centre of the segment, or the end of the section for
    the positions 0 and 1) is the engine's business and is not computed
    here. *)
Record PointProcess := mkPP {
  pp_kind : PPKind;
  pp_seg : Segment;
  pp_attrs : gmap string Q
}.

(** [h.NetCon(source, target, sec=...)]; [nc_record] is the triple given to
    [nc.record(tvec, idvec, id)]. *)
Record NetCon := mkNetCon {
  nc_source : Ref;
  nc_target : option nat;
  nc_sec : nat;
  nc_delay : option Q;
  nc_weight0 : option Q;
  nc_record : option (nat * nat * nat)
}.

(** [h.Vector()], with the variable it was told to record. *)
Record Vector := mkVector {
  vec_data : list Q;
  vec_record : option Ref
}.

Record Engine := mkEngine {
  secs : list Section;
  topology : list Connect;
  pps : list PointProcess;
  netcons : list NetCon;
  vectors : list Vector;
  tstop : option Q
}.

(** The engine's run loop: the samples it leaves in each recording vector. *)
Class Integrator := {
  simulate : Engine → nat → list Q
}.

(** ** matplotlib *)

Inductive PltCmd :=
| plt_figure (figsize : option (Q * Q))
| plt_plot (xs ys : list Q) (color label : string)
| plt_scatter (xs ys : list Q) (s : Q) (marker : option string) (c : option string)
| plt_legend
| plt_xlabel (l : string)
| plt_ylabel (l : string)
| plt_xlim (lim : option (Q * Q))
| plt_ylim (lim : option (Q * Q))
| plt_title (t : string)
| plt_show.

(** ** Python objects *)

(** An [HHCell] instance.  [synlist], [nclist], [nslist], [soma] and [dend]
    are bound by [__init__]; the other attributes exist only once the
    method that assigns them has run. *)
Record HHCell := mkHHCell {
  synlist : list nat;
  nclist : list nat;
  nslist : list nat;
  soma : nat;
  dend : nat;
  stim : option nat;
  soma_v_vec : option nat;
  dend_v_vec : option nat;
  t_vec : option nat;
  x : option Q;
  y : option Q
}.

(** A [Pop] instance. *)
Record Pop := mkPop {
  spkt : nat;
  spkid : nat;
  cells : list nat
}.

Inductive Exception :=
| IndexError
| AttributeError
| ValueError
| DanglingReference.

Inductive Result (A : Type) :=
| Ok (a : A)
| Raise (e : Exception).
Arguments Ok {A} a.
Arguments Raise {A} e.

Section Model.
Context `{NumpyRandom} `{Integrator}.

(** ** The world *)

Record World := mkWorld {
  engine : Engine;
  heap : list HHCell;
  rng : RandomState;
  plt : list PltCmd;
  stdout : list string
}.

Definition with_secs (f : list Section → list Section) (e : Engine) : Engine :=
  mkEngine (f (secs e)) (topology e) (pps e) (netcons e) (vectors e) (tstop e).
Definition with_topology (f : list Connect → list Connect) (e : Engine) : Engine :=
  mkEngine (secs e) (f (topology e)) (pps e) (netcons e) (vectors e) (tstop e).
Definition with_pps (f : list PointProcess → list PointProcess) (e : Engine) : Engine :=
  mkEngine (secs e) (topology e) (f (pps e)) (netcons e) (vectors e) (tstop e).
Definition with_netcons (f : list NetCon → list NetCon) (e : Engine) : Engine :=
  mkEngine (secs e) (topology e) (pps e) (f (netcons e)) (vectors e) (tstop e).
Definition with_vectors (f : list Vector → list Vector) (e : Engine) : Engine :=
  mkEngine (secs e) (topology e) (pps e) (netcons e) (f (vectors e)) (tstop e).
Definition with_tstop (f : option Q → option Q) (e : Engine) : Engine :=
  mkEngine (secs e) (topology e) (pps e) (netcons e) (vectors e) (f (tstop e)).

Definition with_engine (f : Engine → Engine) (w : World) : World :=
  mkWorld (f (engine w)) (heap w) (rng w) (plt w) (stdout w).
Definition with_heap (f : list HHCell → list HHCell) (w : World) : World :=
  mkWorld (engine w) (f (heap w)) (rng w) (plt w) (stdout w).
Definition with_rng (f : RandomState → RandomState) (w : World) : World :=
  mkWorld (engine w) (heap w) (f (rng w)) (plt w) (stdout w).
Definition with_plt (f : list PltCmd → list PltCmd) (w : World) : World :=
  mkWorld (engine w) (heap w) (rng w) (f (plt w)) (stdout w).
Definition with_stdout (f : list string → list string) (w : World) : World :=
  mkWorld (engine w) (heap w) (rng w) (plt w) (f (stdout w)).

(** ** The monad *)

Definition M (A : Type) : Type := World → Result (A * World).

#[global] Instance M_ret : MRet M := λ A a w, Ok (a, w).
#[global] Instance M_bind : MBind M := λ A B f m w,
  match m w with
  | Ok (a, w') => f a w'
  | Raise e => Raise e
  end.

Definition raise {A} (e : Exception) : M A := λ _, Raise e.
Definition gets {A} (f : World → A) : M A := λ w, Ok (f w, w).
Definition modify (f : World → World) : M unit := λ w, Ok (tt, f w).

(** Allocation in a store: the new object goes last, its index is returned. *)
Definition alloc {A} (store : World → list A)
    (upd : (list A → list A) → World → World) (a : A) : M nat :=
  λ w, Ok (length (store w), upd (λ l, l ++ [a]) w).

(** Reading an attribute that may not have been assigned yet. *)
Definition getattr {A} (o : option A) : M A :=
  match o with
  | Some a => mret a
  | None => raise AttributeError
  end.

(** Python's [l[i]]: negative indices count from the end, anything outside
    [-len, len) raises [IndexError]. *)
Definition py_index {A} (l : list A) (i : Z) : M A :=
  let n := Z.of_nat (length l) in
  let j := if (i <? 0)%Z then (n + i)%Z else i in
  if ((0 <=? j)%Z && (j <? n)%Z)%bool then
    match l !! Z.to_nat j with
    | Some a => mret a
    | None => raise IndexError
    end
  else raise IndexError.

(** Following a reference to an [HHCell]. *)
Definition deref (c : nat) : M HHCell :=
  λ w, match heap w !! c with
       | Some o => Ok (o, w)
       | None => Raise DanglingReference
       end.

Definition setcell (c : nat) (f : HHCell → HHCell) : M unit :=
  modify (with_heap (alter f c)).

(** ** Engine primitives *)

Definition h_Section (name : string) : M nat :=
  alloc (secs ∘ engine) (with_engine ∘ with_secs) (mkSection name [] ∅).

Definition sec_setattr (s : nat) (k : string) (v : Q) : M unit :=
  modify (with_engine (with_secs (alter
    (λ o, mkSection (sec_name o) (sec_mechs o) (<[k := v]> (sec_attrs o))) s))).

Definition sec_insert (s : nat) (mech : string) : M unit :=
  modify (with_engine (with_secs (alter
    (λ o, mkSection (sec_name o) (sec_mechs o ++ [mech]) (sec_attrs o)) s))).

Definition sec_connect (c : nat) (p : Segment) : M unit :=
  modify (with_engine (with_topology (λ l, l ++ [mkConnect c 0 p]))).

(** [sec(x)] with a position that is not a literal: the engine refuses a
    position outside [[0, 1]] with [ValueError].  Where the source passes
    a literal inside that range ([soma(0.5)], [dend(1)]) the model writes
    the segment itself. *)
Definition in_section (pos : Q) : bool := Qle_bool 0 pos && Qle_bool pos 1.

Definition sec_call (s : nat) (pos : Q) : M Segment :=
  if in_section pos then mret (Seg s pos) else raise ValueError.

Definition h_PointProcess (k : PPKind) (seg : Segment) : M nat :=
  alloc (pps ∘ engine) (with_engine ∘ with_pps) (mkPP k seg ∅).

Definition pp_setattr (p : nat) (k : string) (v : Q) : M unit :=
  modify (with_engine (with_pps (alter
    (λ o, mkPP (pp_kind o) (pp_seg o) (<[k := v]> (pp_attrs o))) p))).

Definition h_NetCon (src : Ref) (tgt : option nat) (sec : nat) : M nat :=
  alloc (netcons ∘ engine) (with_engine ∘ with_netcons)
        (mkNetCon src tgt sec None None None).

Definition nc_set_delay (n : nat) (d : Q) : M unit :=
  modify (with_engine (with_netcons (alter
    (λ o, mkNetCon (nc_source o) (nc_target o) (nc_sec o) (Some d)
                   (nc_weight0 o) (nc_record o)) n))).

Definition nc_set_weight0 (n : nat) (wt : Q) : M unit :=
  modify (with_engine (with_netcons (alter
    (λ o, mkNetCon (nc_source o) (nc_target o) (nc_sec o) (nc_delay o)
                   (Some wt) (nc_record o)) n))).

Definition nc_set_record (n : nat) (tvec idvec id : nat) : M unit :=
  modify (with_engine (with_netcons (alter
    (λ o, mkNetCon (nc_source o) (nc_target o) (nc_sec o) (nc_delay o)
                   (nc_weight0 o) (Some (tvec, idvec, id))) n))).

Definition h_Vector : M nat :=
  alloc (vectors ∘ engine) (with_engine ∘ with_vectors) (mkVector [] None).

Definition vec_set_record (v : nat) (r : Ref) : M unit :=
  modify (with_engine (with_vectors (alter
    (λ o, mkVector (vec_data o) (Some r)) v))).

(** The samples held by a vector (an unknown vector holds none). *)
Definition vec_read (v : nat) : M (list Q) :=
  gets (λ w, default [] (vec_data <$> vectors (engine w) !! v)).

Definition h_set_tstop (t : Q) : M unit :=
  modify (with_engine (with_tstop (λ _, Some t))).

(** [h.init()]: recorded vectors are emptied. *)
Definition h_init : M unit :=
  modify (with_engine (with_vectors (fmap
    (λ o, mkVector (match vec_record o with Some _ => [] | None => vec_data o end)
                   (vec_record o))))).

(** [h.run()]: the integration fills the vectors and touches nothing else. *)
Definition h_run : M unit :=
  modify (with_engine (λ e, with_vectors (imap
    (λ i o, mkVector (simulate e i) (vec_record o))) e)).

(** ** matplotlib and stdout primitives *)

Definition plt_call (c : PltCmd) : M unit :=
  modify (with_plt (λ l, l ++ [c])).

Definition is_figure (c : PltCmd) : bool :=
  match c with plt_figure _ => true | _ => false end.

(** [plt.figure(...)] returns a new [Figure] object.  The model names
    that object by the rank of the call among the calls of [plt.figure]
    so far, counted from 1.  This is a name for the object and not its
    [number] in pyplot, which also counts the figures pyplot opens on its
    own (see [pyplot] below); nothing in the source reads the number. *)
Definition plt_new_figure (figsize : option (Q * Q)) : M nat :=
  plt_call (plt_figure figsize);;
  gets (λ w, length (filter is_figure (plt w))).

(** [plt.plot(xvec, yvec, color=..., label=...)] on two engine vectors. *)
Definition plt_plot_vectors (xv yv : nat) (color label : string) : M unit :=
  xs ← vec_read xv;
  ys ← vec_read yv;
  plt_call (plt_plot xs ys color label).

(** pyplot keeps a current figure.  [plt.figure] opens a new one; any
    other call of the scripts draws on the current figure and opens one on
    its own when there is none.  Whether the figures are still open when
    [plt.show()] returns depends on the backend, so it is a parameter:
    [closes] says that they are not.  The state is the number of figures
    opened so far, and whether one is current. *)
Definition pyplot_step (closes : bool) (st : nat * bool) (c : PltCmd)
    : nat * bool :=
  match c with
  | plt_figure _ => (S st.1, true)
  | plt_show => (st.1, if closes then false else st.2)
  | _ => (if st.2 then st.1 else S st.1, true)
  end.

Definition pyplot (closes : bool) (log : list PltCmd) : nat * bool :=
  foldl (pyplot_step closes) (0, false) log.

Definition figures_opened (closes : bool) (log : list PltCmd) : nat :=
  (pyplot closes log).1.

Definition figure_is_open (closes : bool) (log : list PltCmd) : bool :=
  (pyplot closes log).2.

Definition print (s : string) : M unit :=
  modify (with_stdout (λ l, l ++ [s])).

(** ** numpy *)

Definition np_random_seed (n : Z) : M unit :=
  modify (with_rng (λ _, seed n)).

(** [size] draws, each [low + (high - low) * random_sample()]. *)
Fixpoint uniform (low high : Q) (size : nat) (s : RandomState)
    : list Q * RandomState :=
  match size with
  | O => ([], s)
  | S n =>
      let '(u, s1) := random_sample s in
      let '(rest, s2) := uniform low high n s1 in
      ((low + (high - low) * u)%Q :: rest, s2)
  end.

Definition np_random_uniform (low high : Q) (size : nat) : M (list Q) :=
  λ w, let '(l, s) := uniform low high size (rng w) in
       Ok (l, with_rng (λ _, s) w).

(** ** class HHCell (tutorial_4b.py)

    [tutorial_3_solution.py] has the same [create_sections] ...
    [plot_voltage], line for line, and no synapse methods;
    [tutorial_4a.py] differs in [define_geometry] and [connect2pre]
    (see below). *)

Definition set_stim (v : nat) (o : HHCell) : HHCell :=
  mkHHCell (synlist o) (nclist o) (nslist o) (soma o) (dend o) (Some v)
           (soma_v_vec o) (dend_v_vec o) (t_vec o) (x o) (y o).
Definition set_soma_v_vec (v : nat) (o : HHCell) : HHCell :=
  mkHHCell (synlist o) (nclist o) (nslist o) (soma o) (dend o) (stim o)
           (Some v) (dend_v_vec o) (t_vec o) (x o) (y o).
Definition set_dend_v_vec (v : nat) (o : HHCell) : HHCell :=
  mkHHCell (synlist o) (nclist o) (nslist o) (soma o) (dend o) (stim o)
           (soma_v_vec o) (Some v) (t_vec o) (x o) (y o).
Definition set_t_vec (v : nat) (o : HHCell) : HHCell :=
  mkHHCell (synlist o) (nclist o) (nslist o) (soma o) (dend o) (stim o)
           (soma_v_vec o) (dend_v_vec o) (Some v) (x o) (y o).
Definition append_synlist (s : nat) (o : HHCell) : HHCell :=
  mkHHCell (synlist o ++ [s]) (nclist o) (nslist o) (soma o) (dend o) (stim o)
           (soma_v_vec o) (dend_v_vec o) (t_vec o) (x o) (y o).
Definition append_nclist (n : nat) (o : HHCell) : HHCell :=
  mkHHCell (synlist o) (nclist o ++ [n]) (nslist o) (soma o) (dend o) (stim o)
           (soma_v_vec o) (dend_v_vec o) (t_vec o) (x o) (y o).
Definition set_xy (px py : Q) (o : HHCell) : HHCell :=
  mkHHCell (synlist o) (nclist o) (nslist o) (soma o) (dend o) (stim o)
           (soma_v_vec o) (dend_v_vec o) (t_vec o) (Some px) (Some py).

(** Returns the two new sections; [__init__] binds them to [self.soma] and
    [self.dend]. *)
Definition create_sections : M (nat * nat) :=
  so ← h_Section "soma";
  de ← h_Section "dend";
  mret (so, de).

Definition build_topology (self : nat) : M unit :=
  o ← deref self;
  sec_connect (dend o) (Seg (soma o) 1).

Definition define_geometry (self : nat) : M unit :=
  o ← deref self;
  sec_setattr (soma o) "L" 12.6157;;
  sec_setattr (soma o) "diam" 12.6157;;
  sec_setattr (dend o) "L" 200;;
  sec_setattr (dend o) "diam" 1;;
  sec_setattr (dend o) "nseg" 9.

Definition define_biophysics (self : nat) : M unit :=
  o ← deref self;
  sec_setattr (soma o) "Ra" 100;;
  sec_setattr (soma o) "cm" 1;;
  sec_setattr (dend o) "Ra" 100;;
  sec_setattr (dend o) "cm" 1;;
  sec_insert (soma o) "hh";;
  sec_setattr (soma o) "gnabar_hh" 0.12;;
  sec_setattr (soma o) "gkbar_hh" 0.036;;
  sec_setattr (soma o) "gl_hh" 0.0003;;
  sec_setattr (soma o) "el_hh" (-54.3);;
  sec_insert (dend o) "pas";;
  sec_setattr (dend o) "g_pas" 0.001;;
  sec_setattr (dend o) "e_pas" (-65).

(** [HHCell()]: the instance is allocated with the attributes [__init__]
    binds, then the four set-up methods run on it in source order. *)
Definition HHCell_init : M nat :=
  '(so, de) ← create_sections;
  self ← alloc heap with_heap
           (mkHHCell [] [] [] so de None None None None None None);
  build_topology self;;
  define_geometry self;;
  define_biophysics self;;
  mret self.

Definition add_current_stim (self : nat) (delay : Q) : M unit :=
  o ← deref self;
  st ← h_PointProcess IClamp (Seg (dend o) 1.0);
  setcell self (set_stim st);;
  pp_setattr st "amp" 0.3;;
  pp_setattr st "delay" delay;;
  pp_setattr st "dur" 1.

Definition set_recording (self : nat) : M unit :=
  o ← deref self;
  sv ← h_Vector;
  setcell self (set_soma_v_vec sv);;
  dv ← h_Vector;
  setcell self (set_dend_v_vec dv);;
  tv ← h_Vector;
  setcell self (set_t_vec tv);;
  vec_set_record sv (ref_v (Seg (soma o) 0.5));;
  vec_set_record dv (ref_v (Seg (dend o) 0.5));;
  vec_set_record tv ref_t.

Definition plot_voltage (self : nat) (title : string)
    (ylim : option (Q * Q)) (show : bool) : M nat :=
  fig ← plt_new_figure (Some (8, 4)%Q);
  o ← deref self;
  tv ← getattr (t_vec o);
  sv ← getattr (soma_v_vec o);
  plt_plot_vectors tv sv "black" "soma(0.5)";;
  tv' ← getattr (t_vec o);
  dv ← getattr (dend_v_vec o);
  plt_plot_vectors tv' dv "red" "dend(0.5)";;
  plt_call plt_legend;;
  plt_call (plt_xlabel "time (ms)");;
  plt_call (plt_ylabel "mV");;
  plt_call (plt_ylim ylim);;
  plt_call (plt_title title);;
  (if show then plt_call plt_show else mret tt);;
  mret fig.

Definition create_synapse (self : nat) (loc tau e : Q) : M unit :=
  o ← deref self;
  seg ← sec_call (dend o) loc;
  syn ← h_PointProcess ExpSyn seg;
  pp_setattr syn "tau" tau;;
  pp_setattr syn "e" e;;
  setcell self (append_synlist syn).

Definition connect2pre (self preCell : nat) (synid : Z) (delay weight : Q)
    : M unit :=
  pre ← deref preCell;
  o ← deref self;
  syn ← py_index (synlist o) synid;
  nc ← h_NetCon (ref_v (Seg (soma pre) 0.5)) (Some syn) (soma pre);
  nc_set_delay nc delay;;
  nc_set_weight0 nc weight;;
  setcell self (append_nclist nc).

Definition set_position (self : nat) (px py : Q) : M unit :=
  setcell self (set_xy px py).

(** ** tutorial_4a.py: the two methods that differ *)

Definition define_geometry_4a (self : nat) : M unit :=
  o ← deref self;
  sec_setattr (soma o) "L" 12.6157;;
  sec_setattr (soma o) "diam" 12.6157;;
  sec_setattr (dend o) "L" 200;;
  sec_setattr (dend o) "diam" 1;;
  sec_setattr (dend o) "nseg" 10.

(** [HHCell()] in tutorial_4a.py: there is no [nclist] or [nslist] to
    bind (they stay empty here), and the dendrite gets 10 segments. *)
Definition HHCell_init_4a : M nat :=
  '(so, de) ← create_sections;
  self ← alloc heap with_heap
           (mkHHCell [] [] [] so de None None None None None None);
  build_topology self;;
  define_geometry_4a self;;
  define_biophysics self;;
  mret self.

(** The connection is made and configured but not kept in any list. *)
Definition connect2pre_4a (self preCell : nat) (synid : Z) (delay weight : Q)
    : M unit :=
  pre ← deref preCell;
  o ← deref self;
  syn ← py_index (synlist o) synid;
  nc ← h_NetCon (ref_v (Seg (soma pre) 0.5)) (Some syn) (soma pre);
  nc_set_delay nc delay;;
  nc_set_weight0 nc weight.

(** ** class Pop (tutorial_4b.py) *)

(** The class attribute [size = (100, 100)]: width, height. *)
Definition Pop_size : Q * Q := (100, 100)%Q.

(** [for a in l: body], threading the loop's local state. *)
Fixpoint for_each {A S : Type} (l : list A) (body : A → S → M S) (s : S)
    : M S :=
  match l with
  | [] => mret s
  | a :: l' => s' ← body a s; for_each l' body s'
  end.

(** One iteration of the loop of [create_cells]; [create_synapse()] is
    called with its defaults [loc=0.5, tau=2, e=0]. *)
Definition create_cells_body (xPoss yPoss : list Q) (i : nat) (self : Pop)
    : M Pop :=
  cell ← HHCell_init;
  set_recording cell;;
  create_synapse cell 0.5 2 0;;
  px ← py_index xPoss (Z.of_nat i);
  py ← py_index yPoss (Z.of_nat i);
  set_position cell px py;;
  o ← deref cell;
  nc ← h_NetCon (ref_v (Seg (soma o) 0.5)) None (soma o);
  nc_set_record nc (spkt self) (spkid self) i;;
  let self' := mkPop (spkt self) (spkid self) (cells self ++ [cell]) in
  print ("Created cell " +:+ pretty i);;
  mret self'.

Definition create_cells (self : Pop) (numCells : nat)
    (xNormRange yNormRange : list Q) : M Pop :=
  let self0 := mkPop (spkt self) (spkid self) [] in
  xn0 ← py_index xNormRange 0;
  let xMin := (Pop_size.1 * xn0)%Q in
  xn1 ← py_index xNormRange 1;
  let xMax := (Pop_size.1 * xn1)%Q in
  xPoss ← np_random_uniform xMin xMax numCells;
  yn0 ← py_index yNormRange 0;
  let yMin := (Pop_size.2 * yn0)%Q in
  yn1 ← py_index yNormRange 1;
  let yMax := (Pop_size.2 * yn1)%Q in
  yPoss ← np_random_uniform yMin yMax numCells;
  for_each (seq 0 numCells) (create_cells_body xPoss yPoss) self0.

(** [Pop(numCells, xNormRange, yNormRange)]. *)
Definition Pop_init (numCells : nat) (xNormRange yNormRange : list Q)
    : M Pop :=
  tv ← h_Vector;
  iv ← h_Vector;
  create_cells (mkPop tv iv []) numCells xNormRange yNormRange.

Definition plot_net (self : Pop) (show : bool) : M unit :=
  plt_call (plt_xlim (Some (0, Pop_size.1)%Q));;
  plt_call (plt_ylim (Some (0, Pop_size.2)%Q));;
  posX ← mapM (λ c, o ← deref c; getattr (x o)) (cells self);
  posY ← mapM (λ c, o ← deref c; getattr (y o)) (cells self);
  plt_call (plt_scatter posX posY 40 None None);;
  if show then plt_call plt_show else mret tt.

Definition plot_raster (self : Pop) (color : string) (show : bool) : M unit :=
  _ ← plt_new_figure None;
  ts ← vec_read (spkt self);
  ids ← vec_read (spkid self);
  plt_call (plt_scatter ts ids 100 (Some "|") (Some color));;
  plt_call (plt_xlabel "time (ms)");;
  plt_call (plt_ylabel "cell id");;
  plt_call (plt_title "Network raster");;
  if show then plt_call plt_show else mret tt.

(** ** The script of tutorial_4b.py *)

(** Lines 97 and 152: the seed is fixed, then the first population is
    built with [xNormRange] left at its default. *)
Definition make_popExc : M Pop :=
  np_random_seed 111;;
  Pop_init 100 [0.0; 1.0]%Q [0.2; 1]%Q.

Definition tutorial_4b : M (Pop * Pop) :=
  popExc ← make_popExc;
  popInh ← Pop_init 40 [0.0; 1.0]%Q [0; 0.33]%Q;
  plot_net popExc false;;
  plot_net popInh false;;
  h_set_tstop 1e3;;
  h_init;;
  h_run;;
  plot_raster popExc "blue" false;;
  c0 ← py_index (cells popExc) 0;
  _ ← plot_voltage c0 "Cell voltage" None false;
  plt_call plt_show;;
  mret (popExc, popInh).

(** ** What a script can do to a world after a cell exists

    The calls the three scripts make: the methods of [HHCell] and [Pop]
    other than the set-up steps that only [__init__] runs, the two
    constructors, and the engine's and numpy's entry points. *)
Inductive Call :=
| call_HHCell
| call_add_current_stim (c : nat) (delay : Q)
| call_set_recording (c : nat)
| call_plot_voltage (c : nat) (title : string) (ylim : option (Q * Q))
                    (show : bool)
| call_create_synapse (c : nat) (loc tau e : Q)
| call_connect2pre (c preCell : nat) (synid : Z) (delay weight : Q)
| call_set_position (c : nat) (px py : Q)
| call_Pop (numCells : nat) (xNormRange yNormRange : list Q)
| call_plot_net (p : Pop) (show : bool)
| call_plot_raster (p : Pop) (color : string) (show : bool)
| call_seed (n : Z)
| call_tstop (t : Q)
| call_init
| call_run
| call_show.

Definition exec (c : Call) : M unit :=
  match c with
  | call_HHCell => _ ← HHCell_init; mret tt
  | call_add_current_stim c d => add_current_stim c d
  | call_set_recording c => set_recording c
  | call_plot_voltage c t l s => _ ← plot_voltage c t l s; mret tt
  | call_create_synapse c loc tau e => create_synapse c loc tau e
  | call_connect2pre c p i d wt => connect2pre c p i d wt
  | call_set_position c px py => set_position c px py
  | call_Pop n xr yr => _ ← Pop_init n xr yr; mret tt
  | call_plot_net p s => plot_net p s
  | call_plot_raster p c s => plot_raster p c s
  | call_seed n => np_random_seed n
  | call_tstop t => h_set_tstop t
  | call_init => h_init
  | call_run => h_run
  | call_show => plt_call plt_show
  end.

Fixpoint exec_all (cs : list Call) : M unit :=
  match cs with
  | [] => mret tt
  | c :: cs' => exec c;; exec_all cs'
  end.

(** [set_position] on the cell [c]: the one call that moves it. *)
Definition moves (c : nat) (k : Call) : bool :=
  match k with
  | call_set_position c' _ _ => bool_decide (c' = c)
  | _ => false
  end.

(** ** Observations *)

(** How many [connect] calls attached section [s] as a child. *)
Definition times_connected (s : nat) (w : World) : nat :=
  length (filter (λ k, child k = s) (topology (engine w))).

(** The sections the world knows are the only ones its topology mentions. *)
Definition topology_closed (w : World) : Prop :=
  Forall (λ k, child k < length (secs (engine w))) (topology (engine w)).

(** The position of a cell, when both coordinates are assigned. *)
Definition position (w : World) (c : nat) : option (Q * Q) :=
  o ← heap w !! c; px ← x o; py ← y o; Some (px, py).

(** The model state of a cell: its own attributes and every engine store. *)
Definition model_state (w : World) (c : nat) : option HHCell * Engine :=
  (heap w !! c, engine w).

(** ** The world after [HHCell()] *)

(** The soma as [__init__] leaves it. *)
Definition soma_section : Section :=
  mkSection "soma" ["hh"]
    (<["el_hh" := (-54.3)%Q]> (<["gl_hh" := 0.0003%Q]>
     (<["gkbar_hh" := 0.036%Q]> (<["gnabar_hh" := 0.12%Q]>
     (<["cm" := 1%Q]> (<["Ra" := 100%Q]>
     (<["diam" := 12.6157%Q]> (<["L" := 12.6157%Q]> ∅)))))))).

(** The dendrite as [__init__] leaves it. *)
Definition dend_section : Section :=
  mkSection "dend" ["pas"]
    (<["e_pas" := (-65)%Q]> (<["g_pas" := 0.001%Q]>
     (<["cm" := 1%Q]> (<["Ra" := 100%Q]>
     (<["nseg" := 9%Q]> (<["diam" := 1%Q]> (<["L" := 200%Q]> ∅))))))).

(** The instance as [__init__] leaves it, given the index of its soma. *)
Definition new_cell (so : nat) : HHCell :=
  mkHHCell [] [] [] so (so + 1) None None None None None None.

Definition HHCell_world (w : World) : World :=
  let so := length (secs (engine w)) in
  with_heap (λ l, l ++ [new_cell so])
    (with_engine (with_topology (λ l, l ++ [mkConnect (so + 1) 0 (Seg so 1)]))
      (with_engine (with_secs (λ l, l ++ [soma_section; dend_section])) w)).

(** ** The world after one iteration of [create_cells] *)

(** The synapse [create_synapse()] makes on the dendrite [de]. *)
Definition default_synapse (de : nat) : PointProcess :=
  mkPP ExpSyn (Seg de 0.5) (<["e" := 0%Q]> (<["tau" := 2%Q]> ∅)).

(** The connection that logs the spikes of the soma [so] under [id]. *)
Definition spike_detector (so tvec idvec id : nat) : NetCon :=
  mkNetCon (ref_v (Seg so 0.5)) None so None None (Some (tvec, idvec, id)).

(** A member of a population: soma [so], vectors [v], [v+1], [v+2],
    synapse [p], placed at [(px, py)]. *)
Definition member_cell (so v p : nat) (px py : Q) : HHCell :=
  mkHHCell [p] [] [] so (so + 1) None
           (Some v) (Some (v + 1)) (Some (v + 2)) (Some px) (Some py).

Definition recording_vectors (so : nat) : list Vector :=
  [mkVector [] (Some (ref_v (Seg so 0.5)));
   mkVector [] (Some (ref_v (Seg (so + 1) 0.5)));
   mkVector [] (Some ref_t)].

Definition body_world (px py : Q) (i : nat) (self : Pop) (w : World) : World :=
  let so := length (secs (engine w)) in
  let v := length (vectors (engine w)) in
  let p := length (pps (engine w)) in
  with_stdout (λ l, l ++ ["Created cell " +:+ pretty i])
    (with_heap (λ l, l ++ [member_cell so v p px py])
      (with_engine
         (λ e, with_netcons
                 (λ l, l ++ [spike_detector so (spkt self) (spkid self) i])
              (with_pps (λ l, l ++ [default_synapse (so + 1)])
              (with_vectors (λ l, l ++ recording_vectors so)
              (with_topology (λ l, l ++ [mkConnect (so + 1) 0 (Seg so 1)])
              (with_secs (λ l, l ++ [soma_section; dend_section]) e)))))
         w)).

(** ** Specifications of computations *)

(** [m] runs to completion from [w], and [Q] holds of what it returns. *)
Definition returns {A} (m : M A) (w : World) (Q : A → World → Prop) : Prop :=
  ∃ a w', m w = Ok (a, w') ∧ Q a w'.

(** [Q] holds of whatever [m] returns from [w], should it return. *)
Definition on_return {A} (m : M A) (w : World) (Q : A → World → Prop)
    : Prop :=
  ∀ a w', m w = Ok (a, w') → Q a w'.

(** Every store of [w] is an initial segment of the same store of [w']:
    objects were added, none that [w] knows was touched. *)
Definition extends (w w' : World) : Prop :=
  secs (engine w) `prefix_of` secs (engine w') ∧
  topology (engine w) `prefix_of` topology (engine w') ∧
  pps (engine w) `prefix_of` pps (engine w') ∧
  netcons (engine w) `prefix_of` netcons (engine w') ∧
  vectors (engine w) `prefix_of` vectors (engine w') ∧
  heap w `prefix_of` heap w'.

(** The connection [connect2pre] makes from the soma of [pre] to the
    synapse [syn]. *)
Definition connection (pre : HHCell) (syn : nat) (delay weight : Q) : NetCon :=
  mkNetCon (ref_v (Seg (soma pre) 0.5)) (Some syn) (soma pre)
           (Some delay) (Some weight) None.

(** The stimulus a cell holds: the point process its [stim] attribute
    refers to. *)
Definition stimulus (w : World) (c : nat) : option PointProcess :=
  o ← heap w !! c; st ← stim o; pps (engine w) !! st.

(** The current clamp [add_current_stim(delay)] describes, on the
    dendrite [de]. *)
Definition is_current_stim (p : PointProcess) (de : nat) (delay : Q) : Prop :=
  pp_kind p = IClamp ∧ pp_seg p = Seg de 1.0 ∧
  pp_attrs p !! "amp" = Some 0.3%Q ∧
  pp_attrs p !! "dur" = Some 1%Q ∧
  pp_attrs p !! "delay" = Some delay.

(** The point processes a cell refers to through its attributes. *)
Definition cell_refs (o : HHCell) : list nat :=
  option_list (stim o) ++ synlist o ++ nslist o.

(** Every reference to a point process the world holds: those of the
    cells, then the targets of the connections.  The engine keeps a point
    process for as long as something refers to it; the store [pps] is the
    history of what was made, so a point process that is in the store
    and not referred to is one the engine has dropped. *)
Definition references (w : World) : list nat :=
  (heap w ≫= cell_refs) ++ omap nc_target (netcons (engine w)).

Definition referred (w : World) (p : nat) : Prop := p ∈ references w.

(** No reference names a point process that has not been made. *)
Definition pps_closed (w : World) : Prop :=
  Forall (λ p, p < length (pps (engine w))) (references w).

(** The active set with the literals of [define_biophysics]. *)
Definition has_active_set (s : Section) : Prop :=
  "hh" ∈ sec_mechs s ∧
  sec_attrs s !! "gnabar_hh" = Some 0.12%Q ∧
  sec_attrs s !! "gkbar_hh" = Some 0.036%Q ∧
  sec_attrs s !! "gl_hh" = Some 0.0003%Q ∧
  sec_attrs s !! "el_hh" = Some (-54.3)%Q.

Definition lacks_active_set (s : Section) : Prop :=
  ("hh" ∉ sec_mechs s) ∧
  sec_attrs s !! "gnabar_hh" = None ∧ sec_attrs s !! "gkbar_hh" = None ∧
  sec_attrs s !! "gl_hh" = None ∧ sec_attrs s !! "el_hh" = None.

(** The passive set with the literals of [define_biophysics]. *)
Definition has_passive_set (s : Section) : Prop :=
  "pas" ∈ sec_mechs s ∧
  sec_attrs s !! "g_pas" = Some 0.001%Q ∧
  sec_attrs s !! "e_pas" = Some (-65)%Q.

Definition lacks_passive_set (s : Section) : Prop :=
  ("pas" ∉ sec_mechs s) ∧
  sec_attrs s !! "g_pas" = None ∧ sec_attrs s !! "e_pas" = None.

(** What no call undoes.  Sections are only added; [connect] calls are
    only added, and the new ones attach new sections; a cell keeps its
    soma and dendrite, and keeps [x] and [y] unless [mv] says the call
    moved it. *)
Definition frame (mv : nat → bool) (w w' : World) : Prop :=
  secs (engine w) `prefix_of` secs (engine w') ∧
  (∃ t, topology (engine w') = topology (engine w) ++ t ∧
        Forall (λ k, length (secs (engine w)) ≤ child k
                     ∧ child k < length (secs (engine w'))) t) ∧
  (∀ c o, heap w !! c = Some o →
     ∃ o', heap w' !! c = Some o' ∧ soma o' = soma o ∧ dend o' = dend o ∧
           (mv c = false → x o' = x o ∧ y o' = y o)).

(** The objects one iteration of [create_cells] leaves in the world:
    the cell [c], its sections [so] and [so + 1], its synapse [p] and the
    connection [n] that logs its spikes under [id]. *)
Definition built_member (w : World) (so v p n c tvec idvec id : nat)
    (px py : Q) : Prop :=
  heap w !! c = Some (member_cell so v p px py) ∧
  secs (engine w) !! so = Some soma_section ∧
  secs (engine w) !! (so + 1) = Some dend_section ∧
  pps (engine w) !! p = Some (default_synapse (so + 1)) ∧
  netcons (engine w) !! n = Some (spike_detector so tvec idvec id).

(** What [Pop(numCells, xNormRange, yNormRange)] returns from [w]. *)
Definition Pop_post (numCells : nat) (xNormRange yNormRange : list Q)
    (w : World) (pop : Pop) (w' : World) : Prop :=
  ∃ xn0 xn1 yn0 yn1,
    xNormRange !! 0 = Some xn0 ∧ xNormRange !! 1 = Some xn1 ∧
    yNormRange !! 0 = Some yn0 ∧ yNormRange !! 1 = Some yn1 ∧
    let xd := uniform (Pop_size.1 * xn0) (Pop_size.1 * xn1) numCells (rng w) in
    let yd := uniform (Pop_size.2 * yn0) (Pop_size.2 * yn1) numCells xd.2 in
    let v := length (vectors (engine w)) in
    pop = mkPop v (v + 1) (seq (length (heap w)) numCells) ∧
    rng w' = yd.2 ∧
    extends w w' ∧
    frame (λ _, false) w w' ∧
    length (netcons (engine w')) = length (netcons (engine w)) + numCells ∧
    ∀ j, j < numCells →
      ∃ px py, xd.1 !! j = Some px ∧ yd.1 !! j = Some py ∧
        built_member w' (length (secs (engine w)) + 2 * j) (v + 2 + 3 * j)
          (length (pps (engine w)) + j) (length (netcons (engine w)) + j)
          (length (heap w) + j) v (v + 1) j px py.

(** ** The scripts of tutorial_3_solution.py and tutorial_4a.py *)

(** What the script of tutorial_3_solution.py binds at top level. *)
Record Tutorial3 := mkTutorial3 {
  t3_postCell : nat;
  t3_preCell1 : nat;
  t3_preCell2 : nat;
  t3_postSyn1 : nat;
  t3_pre1Conn : nat;
  t3_postSyn2 : nat;
  t3_pre2Conn : nat
}.

(** Lines 76 to 128 of tutorial_3_solution.py.  Its [HHCell.__init__]
    runs the same four set-up methods as the one of tutorial_4b.py and
    binds no list; the synapses and connections are made by the script
    itself. *)
Definition tutorial_3_solution : M Tutorial3 :=
  postCell ← HHCell_init;
  set_recording postCell;;
  preCell1 ← HHCell_init;
  set_recording preCell1;;
  add_current_stim preCell1 10;;
  preCell2 ← HHCell_init;
  set_recording preCell2;;
  add_current_stim preCell2 10;;
  post ← deref postCell;
  postSyn1 ← h_PointProcess ExpSyn (Seg (dend post) 0.5);
  pp_setattr postSyn1 "e" 0;;
  pp_setattr postSyn1 "tau" 2;;
  pre1 ← deref preCell1;
  pre1Conn ← h_NetCon (ref_v (Seg (soma pre1) 0.5)) (Some postSyn1) (soma pre1);
  nc_set_weight0 pre1Conn 0.005;;
  nc_set_delay pre1Conn 1;;
  post' ← deref postCell;
  postSyn2 ← h_PointProcess ExpSyn (Seg (dend post') 0.5);
  pp_setattr postSyn2 "e" (-80);;
  pp_setattr postSyn2 "tau" 2;;
  pre2 ← deref preCell2;
  pre2Conn ← h_NetCon (ref_v (Seg (soma pre2) 0.5)) (Some postSyn2) (soma pre2);
  nc_set_weight0 pre2Conn 0.01;;
  nc_set_delay pre2Conn 1;;
  h_set_tstop 30;;
  h_init;;
  h_run;;
  _ ← plot_voltage postCell "postCell voltage" (Some (-80, 30)%Q) false;
  plt_call plt_show;;
  mret (mkTutorial3 postCell preCell1 preCell2 postSyn1 pre1Conn
                    postSyn2 pre2Conn).

(** Lines 88 to 118 of tutorial_4a.py: the places for synapses and
    connections are left empty by the source. *)
Definition tutorial_4a : M (nat * nat * nat) :=
  preCell1 ← HHCell_init_4a;
  add_current_stim preCell1 20;;
  set_recording preCell1;;
  preCell2 ← HHCell_init_4a;
  add_current_stim preCell2 20;;
  set_recording preCell2;;
  postCell ← HHCell_init_4a;
  set_recording postCell;;
  h_set_tstop 80;;
  h_init;;
  h_run;;
  _ ← plot_voltage preCell1 "preCell1 voltage" None false;
  _ ← plot_voltage preCell2 "preCell2 voltage" None false;
  _ ← plot_voltage postCell "postCell voltage" (Some (-80, 30)%Q) false;
  plt_call plt_show;;
  mret (preCell1, preCell2, postCell).

(** ** Spikes

    What the engine does, while it runs, with the connections the scripts
    have configured.  The crossings themselves are the integrator's; the
    bookkeeping below is what [nc.record(tvec, idvec, id)] asks for. *)

(** Two references name the same variable. *)
Definition same_ref (a b : Ref) : bool :=
  match a, b with
  | ref_v s, ref_v s' =>
      bool_decide (seg_sec s = seg_sec s') && Qeq_bool (seg_x s) (seg_x s')
  | ref_t, ref_t => true
  | _, _ => false
  end.

(** [vec.append(q)]. *)
Definition push (q : Q) (v : Vector) : Vector :=
  mkVector (vec_data v ++ [q]) (vec_record v).

(** The connection [k] detects a spike at time [t]: if it was told to
    record, [t] is appended to its time vector and its id to its id
    vector. *)
Definition log_spike (t : Q) (e : Engine) (k : NetCon) : Engine :=
  match nc_record k with
  | Some (tvec, idvec, id) =>
      with_vectors (alter (push (inject_Z (Z.of_nat id))) idvec
                    ∘ alter (push t) tvec) e
  | None => e
  end.

(** The variable [src] crosses threshold at time [t]: every connection
    that watches it detects the spike. *)
Definition spike (src : Ref) (t : Q) (e : Engine) : Engine :=
  foldl (log_spike t) e
        (filter (λ k, same_ref (nc_source k) src) (netcons e)).

(** The cell [c] of the world [w] fires at time [t]: the voltage at the
    middle of its soma crosses threshold. *)
Definition fires (w : World) (c : nat) (t : Q) (e : Engine) : Engine :=
  match heap w !! c with
  | Some o => spike (ref_v (Seg (soma o) 0.5)) t e
  | None => e
  end.

(** The [i]-th member of [pop] fires at time [t]. *)
Definition member_fires (w : World) (pop : Pop) (e : Engine) (ev : nat * Q)
    : Engine :=
  match cells pop !! ev.1 with
  | Some c => fires w c ev.2 e
  | None => e
  end.

(** The connections of the world watch sections that exist. *)
Definition sources_closed (w : World) : Prop :=
  Forall (λ k, match nc_source k with
               | ref_v s => seg_sec s < length (secs (engine w))
               | ref_t => True
               end) (netcons (engine w)).

(** ** Worlds without dangling references *)

(** A cell refers to a soma and to point processes that have been made. *)
Definition cell_ok (e : Engine) (o : HHCell) : Prop :=
  soma o < length (secs e) ∧
  Forall (λ p, p < length (pps e)) (cell_refs o).

(** A connection watches a section and targets a point process that have
    been made. *)
Definition netcon_ok (e : Engine) (k : NetCon) : Prop :=
  match nc_source k with
  | ref_v s => seg_sec s < length (secs e)
  | ref_t => True
  end ∧
  match nc_target k with
  | Some p => p < length (pps e)
  | None => True
  end.

Definition well_formed (w : World) : Prop :=
  Forall (cell_ok (engine w)) (heap w) ∧
  Forall (netcon_ok (engine w)) (netcons (engine w)).

(** ** More observations *)

(** The state of the generator [n] draws on. *)
Fixpoint advance (n : nat) (s : RandomState) : RandomState :=
  match n with
  | O => s
  | S n' => advance n' (random_sample s).2
  end.

(** The [k]-th value the generator yields from state [s], counted from 0. *)
Definition draw (k : nat) (s : RandomState) : Q :=
  (random_sample (advance k s)).1.

(** The dendrite as [__init__] of tutorial_4a.py leaves it. *)
Definition dend_section_4a : Section :=
  mkSection "dend" ["pas"]
    (<["e_pas" := (-65)%Q]> (<["g_pas" := 0.001%Q]>
     (<["cm" := 1%Q]> (<["Ra" := 100%Q]>
     (<["nseg" := 10%Q]> (<["diam" := 1%Q]> (<["L" := 200%Q]> ∅))))))).

(** The recording vectors of a cell, once [set_recording] has bound them:
    soma voltage, dendrite voltage, time. *)
Definition recorders (o : HHCell) : option (nat * nat * nat) :=
  sv ← soma_v_vec o; dv ← dend_v_vec o; tv ← t_vec o; Some (sv, dv, tv).

(** The commands one call of [plot_voltage] appends, given the three
    series it reads. *)
Definition voltage_plot (ts vs ds : list Q) (title : string)
    (ylim : option (Q * Q)) (show : bool) : list PltCmd :=
  [plt_figure (Some (8, 4)%Q);
   plt_plot ts vs "black" "soma(0.5)";
   plt_plot ts ds "red" "dend(0.5)";
   plt_legend; plt_xlabel "time (ms)"; plt_ylabel "mV";
   plt_ylim ylim; plt_title title]
  ++ (if show then [plt_show] else []).

(** The lines the loop of [create_cells] prints for the indices [idx]. *)
Definition created_lines (idx : list nat) : list string :=
  (λ i, "Created cell " +:+ pretty i) <$> idx.

Definition is_show (c : PltCmd) : bool :=
  match c with plt_show => true | _ => false end.

(** [a] is known to be [b]: the form in which the stores of a world
    reached part-way through a script are kept. *)
Definition obs {A} (a b : A) : Prop := a = b.

End Model.

(** ** A concrete world to run the model in

    A small linear congruential generator and a constant integrator stand
    in for numpy and the engine when the model is evaluated. *)

Definition lcg_modulus : positive := 65536.

Definition lcg_next (s : Z) : Z := ((75 * s + 74) mod Z.pos lcg_modulus)%Z.

#[export] Instance lcg : NumpyRandom := {|
  RandomState := Z;
  seed := λ n, n;
  random_sample := λ s, (Qmake (lcg_next s) lcg_modulus, lcg_next s)
|}.

#[export] Instance flat : Integrator := {|
  simulate := λ _ _, [(-65)%Q; (-65)%Q]
|}.

Definition empty_world : World :=
  mkWorld (mkEngine [] [] [] [] [] None) [] (seed 0) [] [].

(** The world a result carries, if any. *)
Definition world_of `{NumpyRandom} {A} (r : Result (A * World)) (d : World)
    : World :=
  match r with
  | Ok (_, w) => w
  | Raise _ => d
  end.

(** One cell with one synapse, as the population loop builds it. *)
Definition one_cell_world : World :=
  world_of ((c ← HHCell_init; create_synapse c 0.5 2 0) empty_world)
           empty_world.

(** One cell on which nothing but the constructor has run. *)
Definition bare_cell_world : World :=
  world_of (HHCell_init empty_world) empty_world.

(** The cell of [one_cell_world]. *)
Definition one_cell : HHCell :=
  mkHHCell [0] [] [] 0 1 None None None None None None.

(** The first cell a population built in the empty world gets. *)
Definition first_member : HHCell :=
  member_cell 0 2 0 (7400000 # 65536000) (549248000 # 6553600).

(** A population of three, built in the empty world. *)
Definition small_pop : Pop := mkPop 0 1 [0; 1; 2].

Definition small_pop_world : World :=
  world_of (Pop_init 3 [0.0; 1.0]%Q [0.2; 1]%Q empty_world) empty_world.

(** * Proofs *)

Section Proofs.
Context `{NumpyRandom} `{Integrator}.

(** ** Running the monad *)

Lemma bind_Ok {A B} (m : M A) (f : A → M B) w a w' :
  m w = Ok (a, w') → (m ≫= f) w = f a w'.
Proof. intros E. unfold mbind, M_bind. by rewrite E. Qed.

Lemma bind_Raise {A B} (m : M A) (f : A → M B) w e :
  m w = Raise e → (m ≫= f) w = Raise e.
Proof. intros E. unfold mbind, M_bind. by rewrite E. Qed.

Lemma bind_inv {A B} (m : M A) (f : A → M B) w b w' :
  (m ≫= f) w = Ok (b, w') →
  ∃ a w1, m w = Ok (a, w1) ∧ f a w1 = Ok (b, w').
Proof.
  unfold mbind, M_bind. destruct (m w) as [[a w1]|e]; [eauto | discriminate].
Qed.

Lemma deref_Some c o w : heap w !! c = Some o → deref c w = Ok (o, w).
Proof. intros E. unfold deref. by rewrite E. Qed.

(** ** Python indexing *)

Lemma py_index_nonneg {A} (l : list A) (i : Z) a w :
  (0 <= i)%Z → l !! Z.to_nat i = Some a → py_index l i w = Ok (a, w).
Proof.
  intros Hi Hl. unfold py_index.
  pose proof (lookup_lt_Some _ _ _ Hl) as Hlt.
  destruct (Z.ltb_spec i 0); [lia|].
  destruct (Z.leb_spec 0 i); [|lia].
  destruct (Z.ltb_spec i (Z.of_nat (length l))); [|lia].
  simpl. by rewrite Hl.
Qed.

Lemma py_index_negative {A} (l : list A) (i : Z) a w :
  (i < 0)%Z → (0 <= Z.of_nat (length l) + i)%Z →
  l !! Z.to_nat (Z.of_nat (length l) + i) = Some a →
  py_index l i w = Ok (a, w).
Proof.
  intros Hi Hlo Hl. unfold py_index.
  destruct (Z.ltb_spec i 0); [|lia].
  destruct (Z.leb_spec 0 (Z.of_nat (length l) + i)); [|lia].
  destruct (Z.ltb_spec (Z.of_nat (length l) + i) (Z.of_nat (length l))); [|lia].
  simpl. by rewrite Hl.
Qed.

Lemma py_index_out_of_range {A} (l : list A) (i : Z) w :
  (Z.of_nat (length l) <= i ∨ i < - Z.of_nat (length l))%Z →
  py_index l i w = Raise IndexError.
Proof.
  intros Hi. unfold py_index.
  destruct (Z.ltb_spec i 0).
  - destruct (Z.leb_spec 0 (Z.of_nat (length l) + i)); [lia | done].
  - destruct (Z.leb_spec 0 i); [|lia].
    destruct (Z.ltb_spec i (Z.of_nat (length l))); [lia | done].
Qed.

Lemma py_index_in_range {A} (l : list A) (i : Z) w :
  (- Z.of_nat (length l) <= i < Z.of_nat (length l))%Z →
  ∃ a, py_index l i w = Ok (a, w) ∧
       l !! Z.to_nat (if (i <? 0)%Z then Z.of_nat (length l) + i else i)%Z
         = Some a.
Proof.
  intros Hi. destruct (Z.ltb_spec i 0).
  - destruct (lookup_lt_is_Some_2 l (Z.to_nat (Z.of_nat (length l) + i)))
      as [a Ha]; [lia|].
    exists a. split; [apply py_index_negative; by try lia | done].
  - destruct (lookup_lt_is_Some_2 l (Z.to_nat i)) as [a Ha]; [lia|].
    exists a. split; [by apply py_index_nonneg | done].
Qed.

(** ** Fresh indices in an append-only store *)

Lemma alter_fresh {A} (f : A → A) (l : list A) a r :
  alter f (length l) (l ++ a :: r) = l ++ f a :: r.
Proof. rewrite <- (Nat.add_0_r (length l)) at 1. by rewrite alter_app_r. Qed.

Lemma lookup_fresh_plus {A} (l r : list A) k :
  (l ++ r) !! (length l + k) = r !! k.
Proof. rewrite lookup_app_r by lia. f_equal. lia. Qed.

Lemma lookup_fresh {A} (l : list A) a r : (l ++ a :: r) !! length l = Some a.
Proof. by apply list_lookup_middle. Qed.

Lemma lookup_old {A} (l r : list A) i a :
  l !! i = Some a → (l ++ r) !! i = Some a.
Proof. intros E. by apply lookup_app_l_Some. Qed.

(** ** Worlds are equal when their fields are *)

Lemma engine_eq (e1 e2 : Engine) :
  secs e1 = secs e2 → topology e1 = topology e2 → pps e1 = pps e2 →
  netcons e1 = netcons e2 → vectors e1 = vectors e2 → tstop e1 = tstop e2 →
  e1 = e2.
Proof. destruct e1, e2; simpl; congruence. Qed.

Lemma world_eq (w1 w2 : World) :
  engine w1 = engine w2 → heap w1 = heap w2 → rng w1 = rng w2 →
  plt w1 = plt w2 → stdout w1 = stdout w2 → w1 = w2.
Proof. destruct w1, w2; simpl; congruence. Qed.

(** ** Rules for [returns] *)

Lemma returns_eq {A} (m : M A) w a w' (Q : A → World → Prop) :
  m w = Ok (a, w') → Q a w' → returns m w Q.
Proof. intros. by exists a, w'. Qed.

Lemma returns_ret {A} (a : A) w (Q : A → World → Prop) :
  Q a w → returns (mret a) w Q.
Proof. by apply returns_eq. Qed.

Lemma returns_bind {A B} (m : M A) (f : A → M B) w (Q : B → World → Prop) :
  returns m w (λ a w1, returns (f a) w1 Q) → returns (m ≫= f) w Q.
Proof.
  intros (a & w1 & E & b & w2 & E2 & HQ). exists b, w2. split; [|done].
  by rewrite (bind_Ok _ _ _ _ _ E).
Qed.

Lemma returns_modify f w (Q : unit → World → Prop) :
  Q tt (f w) → returns (modify f) w Q.
Proof. by apply returns_eq. Qed.

Lemma returns_gets {A} (f : World → A) w (Q : A → World → Prop) :
  Q (f w) w → returns (gets f) w Q.
Proof. by apply returns_eq. Qed.

Lemma returns_alloc {A} store upd (a : A) w (Q : nat → World → Prop) :
  Q (length (store w)) (upd (λ l, l ++ [a]) w) →
  returns (alloc store upd a) w Q.
Proof. by apply returns_eq. Qed.

Lemma returns_deref c o w (Q : HHCell → World → Prop) :
  heap w !! c = Some o → Q o w → returns (deref c) w Q.
Proof. intros E. apply returns_eq. by apply deref_Some. Qed.

Lemma returns_getattr {A} (a : A) w (Q : A → World → Prop) :
  Q a w → returns (getattr (Some a)) w Q.
Proof. by apply returns_eq. Qed.

Lemma returns_py_index {A} (l : list A) (i : nat) a w (Q : A → World → Prop) :
  l !! i = Some a → Q a w → returns (py_index l (Z.of_nat i)) w Q.
Proof.
  intros E. apply returns_eq, py_index_nonneg; [lia|]. by rewrite Nat2Z.id.
Qed.

Lemma returns_sec_call s pos w (Q : Segment → World → Prop) :
  in_section pos = true → Q (Seg s pos) w → returns (sec_call s pos) w Q.
Proof. intros E. apply returns_eq. unfold sec_call. by rewrite E. Qed.


Lemma returns_run {A} (m : M A) w a w' :
  returns m w (λ b w1, b = a ∧ w1 = w') → m w = Ok (a, w').
Proof. by intros (b & w1 & E & -> & ->). Qed.

(** ** Rules for [on_return] *)

Lemma on_return_eq {A} (m : M A) w a w' (Q : A → World → Prop) :
  m w = Ok (a, w') → Q a w' → on_return m w Q.
Proof. intros E HQ b w2 E2. rewrite E in E2. by simplify_eq. Qed.

Lemma on_return_ret {A} (a : A) w (Q : A → World → Prop) :
  Q a w → on_return (mret a) w Q.
Proof. by apply on_return_eq. Qed.

Lemma on_return_bind {A B} (m : M A) (f : A → M B) w (Q : B → World → Prop) :
  on_return m w (λ a w1, on_return (f a) w1 Q) → on_return (m ≫= f) w Q.
Proof.
  intros Hm b w2 E. apply bind_inv in E as (a & w1 & E1 & E2).
  by eapply Hm.
Qed.

Lemma on_return_modify f w (Q : unit → World → Prop) :
  Q tt (f w) → on_return (modify f) w Q.
Proof. by apply on_return_eq. Qed.

Lemma on_return_gets {A} (f : World → A) w (Q : A → World → Prop) :
  Q (f w) w → on_return (gets f) w Q.
Proof. by apply on_return_eq. Qed.

Lemma on_return_alloc {A} store upd (a : A) w (Q : nat → World → Prop) :
  Q (length (store w)) (upd (λ l, l ++ [a]) w) →
  on_return (alloc store upd a) w Q.
Proof. by apply on_return_eq. Qed.

Lemma on_return_raise {A} e w (Q : A → World → Prop) :
  on_return (raise e) w Q.
Proof. by intros a w' E. Qed.

Lemma on_return_deref c w (Q : HHCell → World → Prop) :
  (∀ o, heap w !! c = Some o → Q o w) → on_return (deref c) w Q.
Proof.
  intros HQ o w' E. unfold deref in E.
  destruct (heap w !! c) eqn:Eo; simplify_eq. by apply HQ.
Qed.

Lemma on_return_getattr {A} (o : option A) w (Q : A → World → Prop) :
  (∀ a, o = Some a → Q a w) → on_return (getattr o) w Q.
Proof.
  intros HQ a w' E. destruct o as [b|]; [|done].
  injection E as -> ->. by apply HQ.
Qed.

Lemma on_return_py_index {A} (l : list A) i w (Q : A → World → Prop) :
  (∀ a, a ∈ l → Q a w) → on_return (py_index l i) w Q.
Proof.
  intros HQ a w' E. unfold py_index in E.
  destruct (_ && _); [|done].
  destruct (l !! _) as [b|] eqn:El; [|done].
  injection E as -> ->. apply HQ. by eapply list_elem_of_lookup_2.
Qed.

Lemma on_return_sec_call s pos w (Q : Segment → World → Prop) :
  Q (Seg s pos) w → on_return (sec_call s pos) w Q.
Proof.
  intros HQ a w' E. unfold sec_call in E.
  destruct (in_section pos); [|done]. by injection E as <- <-.
Qed.

Lemma on_return_weaken {A} (m : M A) w (Q Q' : A → World → Prop) :
  on_return m w Q → (∀ a w', Q a w' → Q' a w') → on_return m w Q'.
Proof. intros Hm HQQ a w' E. eauto. Qed.

(** ** Symbolic execution *)

Ltac norm :=
  repeat first
    [ progress cbn [compose
        with_engine with_heap with_rng with_plt with_stdout
        with_secs with_topology with_pps with_netcons with_vectors with_tstop
        engine heap rng plt stdout secs topology pps netcons vectors tstop
        soma dend synlist nclist nslist stim soma_v_vec dend_v_vec t_vec x y
        set_stim set_soma_v_vec set_dend_v_vec set_t_vec append_synlist
        append_nclist set_xy
        sec_name sec_mechs sec_attrs pp_kind pp_seg pp_attrs
        nc_source nc_target nc_sec nc_delay nc_weight0 nc_record
        vec_data vec_record spkt spkid cells fst snd]
    | rewrite lookup_fresh
    | rewrite lookup_fresh_plus
    | rewrite alter_fresh
    | rewrite alter_app_r
    | rewrite <- app_assoc
    | rewrite length_app
    | progress cbn [app length alter list_alter lookup list_lookup Nat.add] ].

Ltac unfold_prims :=
  unfold plt_new_figure, plt_plot_vectors;
  unfold h_Section, sec_setattr, sec_insert, sec_connect, h_PointProcess,
    pp_setattr, h_NetCon, nc_set_delay, nc_set_weight0, nc_set_record,
    h_Vector, vec_set_record, vec_read, h_set_tstop, h_init, h_run,
    plt_call, print, np_random_seed, setcell.

Ltac step :=
  norm;
  lazymatch goal with
  | |- returns (mbind _ _) _ _ => apply returns_bind
  | |- returns (mret _) _ _ => apply returns_ret
  | |- returns (modify _) _ _ => apply returns_modify
  | |- returns (gets _) _ _ => apply returns_gets
  | |- returns (alloc _ _ _) _ _ => apply returns_alloc
  | |- returns (deref _) _ _ =>
      eapply returns_deref; [norm; first [reflexivity | eassumption
                                          | apply lookup_old; eassumption] |]
  | |- returns (getattr (Some _)) _ _ => apply returns_getattr
  | |- returns (py_index _ (Z.of_nat _)) _ _ =>
      eapply returns_py_index; [eassumption|]
  | |- returns (py_index _ _) _ _ => eapply returns_eq; [eassumption|]
  | |- returns (sec_call _ _) _ _ =>
      eapply returns_sec_call; [first [reflexivity | eassumption]|]
  | |- returns (if ?b then _ else _) _ _ => destruct b
  | |- on_return (sec_call _ _) _ _ => apply on_return_sec_call
  | |- on_return (mbind _ _) _ _ => apply on_return_bind
  | |- on_return (mret _) _ _ => apply on_return_ret
  | |- on_return (modify _) _ _ => apply on_return_modify
  | |- on_return (gets _) _ _ => apply on_return_gets
  | |- on_return (alloc _ _ _) _ _ => apply on_return_alloc
  | |- on_return (raise _) _ _ => apply on_return_raise
  | |- on_return (deref _) _ _ => apply on_return_deref; intros ? ?
  | |- on_return (getattr _) _ _ => apply on_return_getattr; intros ? ?
  | |- on_return (py_index _ _) _ _ => apply on_return_py_index; intros ? ?
  | |- on_return (if ?b then _ else _) _ _ => destruct b
  end.

Ltac world_ext :=
  apply world_eq; [apply engine_eq|..]; norm; try reflexivity.

(** ** The constructor *)

(** [HHCell()] always returns; it adds two sections, one [connect] call
    and one instance, and touches nothing else. *)
Lemma HHCell_init_eq w :
  HHCell_init w = Ok (length (heap w), HHCell_world w).
Proof.
  apply returns_run.
  unfold HHCell_init, create_sections, build_topology, define_geometry,
    define_biophysics. unfold_prims.
  repeat step. split; [done|].
  unfold HHCell_world. world_ext.
Qed.

(** ** The methods, on a cell that exists *)

Lemma add_current_stim_eq w c o d :
  heap w !! c = Some o →
  add_current_stim c d w = Ok (tt,
    with_engine (with_pps (λ l, l ++
        [mkPP IClamp (Seg (dend o) 1.0)
              (<["dur" := 1%Q]> (<["delay" := d]> (<["amp" := 0.3%Q]> ∅)))]))
      (with_heap (alter (set_stim (length (pps (engine w)))) c) w)).
Proof.
  intros Ho.
  apply returns_run.
  unfold add_current_stim. unfold_prims. repeat step. split; [done|]. world_ext.
Qed.

Lemma set_recording_eq w c o :
  heap w !! c = Some o →
  set_recording c w = Ok (tt,
    let v := length (vectors (engine w)) in
    with_engine (with_vectors (λ l, l ++
        [mkVector [] (Some (ref_v (Seg (soma o) 0.5)));
         mkVector [] (Some (ref_v (Seg (dend o) 0.5)));
         mkVector [] (Some ref_t)]))
      (with_heap (alter (set_t_vec (v + 2) ∘ set_dend_v_vec (v + 1)
                         ∘ set_soma_v_vec v) c) w)).
Proof.
  intros Ho.
  apply returns_run.
  unfold set_recording. unfold_prims. repeat step. split; [done|]. world_ext.
  by rewrite !list_alter_alter_eq.
Qed.


Lemma connect2pre_eq w c p o pre i syn d wt :
  heap w !! c = Some o → heap w !! p = Some pre →
  py_index (synlist o) i w = Ok (syn, w) →
  connect2pre c p i d wt w = Ok (tt,
    with_heap (alter (append_nclist (length (netcons (engine w)))) c)
      (with_engine (with_netcons (λ l, l ++
          [mkNetCon (ref_v (Seg (soma pre) 0.5)) (Some syn) (soma pre)
                    (Some d) (Some wt) None])) w)).
Proof.
  intros Ho Hp Hi. apply returns_run.
  unfold connect2pre. unfold_prims. repeat step. split; [done|]. world_ext.
Qed.

Lemma connect2pre_4a_eq w c p o pre i syn d wt :
  heap w !! c = Some o → heap w !! p = Some pre →
  py_index (synlist o) i w = Ok (syn, w) →
  connect2pre_4a c p i d wt w = Ok (tt,
    with_engine (with_netcons (λ l, l ++
        [mkNetCon (ref_v (Seg (soma pre) 0.5)) (Some syn) (soma pre)
                  (Some d) (Some wt) None])) w).
Proof.
  intros Ho Hp Hi. apply returns_run.
  unfold connect2pre_4a. unfold_prims. repeat step. split; [done|]. world_ext.
Qed.

Lemma connect2pre_Raise w c p o pre i d wt e :
  heap w !! c = Some o → heap w !! p = Some pre →
  py_index (synlist o) i w = Raise e →
  connect2pre c p i d wt w = Raise e.
Proof.
  intros Ho Hp Hi. unfold connect2pre.
  rewrite (bind_Ok _ _ _ _ _ (deref_Some _ _ _ Hp)).
  rewrite (bind_Ok _ _ _ _ _ (deref_Some _ _ _ Ho)).
  by rewrite (bind_Raise _ _ _ _ Hi).
Qed.

Lemma connect2pre_4a_Raise w c p o pre i d wt e :
  heap w !! c = Some o → heap w !! p = Some pre →
  py_index (synlist o) i w = Raise e →
  connect2pre_4a c p i d wt w = Raise e.
Proof.
  intros Ho Hp Hi. unfold connect2pre_4a.
  rewrite (bind_Ok _ _ _ _ _ (deref_Some _ _ _ Hp)).
  rewrite (bind_Ok _ _ _ _ _ (deref_Some _ _ _ Ho)).
  by rewrite (bind_Raise _ _ _ _ Hi).
Qed.

(** The commands one call of [plot_voltage] issues after [plt.figure]. *)
Lemma plot_voltage_eq w c o tv sv dv title ylim show :
  heap w !! c = Some o →
  t_vec o = Some tv → soma_v_vec o = Some sv → dend_v_vec o = Some dv →
  plot_voltage c title ylim show w = Ok (
    length (filter is_figure (plt w ++ [plt_figure (Some (8, 4)%Q)])),
    let read v := default [] (vec_data <$> vectors (engine w) !! v) in
    with_plt (λ l, l ++
      [plt_figure (Some (8, 4)%Q);
       plt_plot (read tv) (read sv) "black" "soma(0.5)";
       plt_plot (read tv) (read dv) "red" "dend(0.5)";
       plt_legend; plt_xlabel "time (ms)"; plt_ylabel "mV";
       plt_ylim ylim; plt_title title]
      ++ (if show then [plt_show] else [])) w).
Proof.
  intros Ho Ht Hs Hd. apply returns_run.
  destruct o; simpl in Ht, Hs, Hd; subst.
  unfold plot_voltage. unfold_prims.
  repeat step; (split; [done|]); world_ext.
Qed.

Lemma create_cells_body_eq xs ys i px py self w :
  xs !! i = Some px → ys !! i = Some py →
  create_cells_body xs ys i self w =
    Ok (mkPop (spkt self) (spkid self) (cells self ++ [length (heap w)]),
        body_world px py i self w).
Proof.
  intros Hx Hy. apply returns_run.
  unfold create_cells_body, HHCell_init, create_sections, build_topology,
    define_geometry, define_biophysics, set_recording, create_synapse,
    set_position.
  unfold_prims. repeat step. split; [done|].
  unfold body_world. world_ext.
Qed.

(** ** Frames *)

Lemma frame_refl mv w : frame mv w w.
Proof.
  unfold frame. split_and!; [done| |].
  - exists []. by rewrite app_nil_r.
  - intros c o Ho. exists o. by split_and!.
Qed.

Lemma frame_trans m1 m2 w w1 w2 :
  frame m1 w w1 → frame m2 w1 w2 → frame (λ c, m1 c || m2 c) w w2.
Proof.
  intros (S1 & (t1 & T1 & F1) & C1) (S2 & (t2 & T2 & F2) & C2).
  pose proof (prefix_length _ _ S1). pose proof (prefix_length _ _ S2).
  split_and!.
  - by etrans.
  - exists (t1 ++ t2). rewrite T2, T1, <- app_assoc. split; [done|].
    apply Forall_app. split; (eapply Forall_impl; [eassumption|]);
      simpl; intros; lia.
  - intros c o Ho. destruct (C1 c o Ho) as (o1 & Ho1 & ? & ? & X1).
    destruct (C2 c o1 Ho1) as (o2 & Ho2 & ? & ? & X2).
    exists o2. split_and!; [done|congruence|congruence|].
    intros [M1 M2]%orb_false_iff.
    destruct (X1 M1), (X2 M2). split; congruence.
Qed.

Lemma frame_mono (m1 m2 : nat → bool) w w' :
  (∀ c, m2 c = false → m1 c = false) → frame m1 w w' → frame m2 w w'.
Proof.
  intros Hm (S1 & T1 & C1). split_and!; [done..|].
  intros c o Ho. destruct (C1 c o Ho) as (o1 & ? & ? & ? & X1).
  exists o1. split_and!; auto.
Qed.

(** Changing one instance in place, when the change keeps [soma] and
    [dend], and [x] and [y] unless it is that instance that may move. *)
Lemma frame_alter mv f c0 w w' :
  secs (engine w') = secs (engine w) →
  topology (engine w') = topology (engine w) →
  heap w' = alter f c0 (heap w) →
  (∀ o, soma (f o) = soma o ∧ dend (f o) = dend o ∧
        (mv c0 = false → x (f o) = x o ∧ y (f o) = y o)) →
  frame mv w w'.
Proof.
  intros ES ET EH Hf. split_and!.
  - by rewrite ES.
  - exists []. by rewrite ET, app_nil_r.
  - intros c o Ho. rewrite EH. destruct (decide (c0 = c)) as [->|Hne].
    + exists (f o). rewrite list_lookup_alter_eq, Ho. split; [done|]. apply Hf.
    + exists o. rewrite list_lookup_alter_ne by done. by split_and!.
Qed.

(** Leaving sections, topology and instances alone. *)
Lemma frame_same mv w w' :
  secs (engine w') = secs (engine w) →
  topology (engine w') = topology (engine w) →
  heap w' = heap w →
  frame mv w w'.
Proof.
  intros ES ET EH. split_and!.
  - by rewrite ES.
  - exists []. by rewrite ET, app_nil_r.
  - intros c o Ho. exists o. rewrite EH. by split_and!.
Qed.

Lemma extends_refl w : extends w w.
Proof. by split_and!. Qed.

Lemma extends_trans w w1 w2 : extends w w1 → extends w1 w2 → extends w w2.
Proof.
  intros (?&?&?&?&?&?) (?&?&?&?&?&?). split_and!; by etrans.
Qed.

Lemma built_member_extends w w' so v p n c tvec idvec id px py :
  extends w w' →
  built_member w so v p n c tvec idvec id px py →
  built_member w' so v p n c tvec idvec id px py.
Proof.
  intros (?&?&?&?&?&?) (?&?&?&?&?).
  split_and!; by eapply prefix_lookup_Some.
Qed.

Lemma HHCell_world_frame mv w : frame mv w (HHCell_world w).
Proof.
  unfold HHCell_world. split_and!; norm.
  - by apply prefix_app_r.
  - eexists. split; [done|]. repeat constructor; simpl; lia.
  - intros c o Ho. exists o. split_and!; [by apply lookup_old|done..].
Qed.

Lemma body_world_frame mv px py i self w :
  frame mv w (body_world px py i self w).
Proof.
  unfold body_world. split_and!; norm.
  - by apply prefix_app_r.
  - eexists. split; [done|]. repeat constructor; simpl; lia.
  - intros c o Ho. exists o. split_and!; [by apply lookup_old|done..].
Qed.

Lemma body_world_extends px py i self w :
  extends w (body_world px py i self w).
Proof. unfold body_world. split_and!; norm; by apply prefix_app_r. Qed.

Lemma body_world_lengths px py i self w :
  let w1 := body_world px py i self w in
  length (secs (engine w1)) = length (secs (engine w)) + 2 ∧
  length (vectors (engine w1)) = length (vectors (engine w)) + 3 ∧
  length (pps (engine w1)) = length (pps (engine w)) + 1 ∧
  length (netcons (engine w1)) = length (netcons (engine w)) + 1 ∧
  length (heap w1) = length (heap w) + 1 ∧
  rng w1 = rng w.
Proof. unfold body_world. by split_and!; norm. Qed.

Lemma body_world_member px py i self w :
  built_member (body_world px py i self w)
    (length (secs (engine w))) (length (vectors (engine w)))
    (length (pps (engine w))) (length (netcons (engine w)))
    (length (heap w)) (spkt self) (spkid self) i px py.
Proof.
  unfold body_world, built_member. by split_and!; norm.
Qed.

(** ** The loop of [create_cells] *)

Lemma create_cells_loop xs ys k : ∀ i0 self w,
  i0 + k ≤ length xs → i0 + k ≤ length ys →
  ∃ w',
    for_each (seq i0 k) (create_cells_body xs ys) self w
      = Ok (mkPop (spkt self) (spkid self)
                  (cells self ++ seq (length (heap w)) k), w') ∧
    extends w w' ∧ frame (λ _, false) w w' ∧ rng w' = rng w ∧
    length (netcons (engine w')) = length (netcons (engine w)) + k ∧
    ∀ j px py, j < k →
      xs !! (i0 + j) = Some px → ys !! (i0 + j) = Some py →
      built_member w'
        (length (secs (engine w)) + 2 * j) (length (vectors (engine w)) + 3 * j)
        (length (pps (engine w)) + j) (length (netcons (engine w)) + j)
        (length (heap w) + j) (spkt self) (spkid self) (i0 + j) px py.
Proof.
  induction k as [|k IH]; intros i0 self w Hx Hy.
  - exists w. simpl. rewrite app_nil_r. destruct self.
    split_and!; [done|apply extends_refl|apply frame_refl|done|lia|].
    intros; lia.
  - destruct (lookup_lt_is_Some_2 xs i0) as [px Hpx]; [lia|].
    destruct (lookup_lt_is_Some_2 ys i0) as [py Hpy]; [lia|].
    cbn [seq for_each].
    rewrite (bind_Ok _ _ _ _ _ (create_cells_body_eq _ _ _ _ _ self w Hpx Hpy)).
    destruct (body_world_lengths px py i0 self w)
      as (Ls & Lv & Lp & Ln & Lh & Lr).
    destruct (IH (S i0)
                (mkPop (spkt self) (spkid self) (cells self ++ [length (heap w)]))
                (body_world px py i0 self w))
      as (w' & E & Ext & Fr & Rng & Len & Mem); [lia|lia|].
    cbn [spkt spkid cells] in E, Mem.
    rewrite Ls, Lv, Lp, Ln, Lh in Mem. rewrite Lh in E. rewrite Ln in Len.
    exists w'. split_and!.
    + rewrite E, <- app_assoc. cbn [app]. by rewrite Nat.add_1_r.
    + eapply extends_trans; [apply body_world_extends | done].
    + eapply frame_mono; [|eapply frame_trans;
                             [apply (body_world_frame (λ _, false)) | exact Fr]].
      done.
    + congruence.
    + lia.
    + intros [|j] qx qy Hj Hqx Hqy.
      * rewrite Nat.add_0_r in Hqx, Hqy. simplify_eq.
        rewrite !Nat.mul_0_r, !Nat.add_0_r.
        eapply built_member_extends; [exact Ext|]. apply body_world_member.
      * replace (i0 + S j) with (S i0 + j) in * by lia.
        specialize (Mem j qx qy ltac:(lia) Hqx Hqy).
        replace (length (secs (engine w)) + 2 * S j)
          with (length (secs (engine w)) + 2 + 2 * j) by lia.
        replace (length (vectors (engine w)) + 3 * S j)
          with (length (vectors (engine w)) + 3 + 3 * j) by lia.
        replace (length (pps (engine w)) + S j)
          with (length (pps (engine w)) + 1 + j) by lia.
        replace (length (netcons (engine w)) + S j)
          with (length (netcons (engine w)) + 1 + j) by lia.
        replace (length (heap w) + S j)
          with (length (heap w) + 1 + j) by lia.
        exact Mem.
Qed.

(** ** numpy *)

Lemma uniform_length lo hi n s : length (uniform lo hi n s).1 = n.
Proof.
  revert s. induction n as [|n IH]; intros s; simpl; [done|].
  destruct (random_sample s) as [u s1]. specialize (IH s1).
  destruct (uniform lo hi n s1). simpl in *. by rewrite IH.
Qed.

Lemma np_random_uniform_eq lo hi n w :
  np_random_uniform lo hi n w
    = Ok ((uniform lo hi n (rng w)).1,
          with_rng (λ _, (uniform lo hi n (rng w)).2) w).
Proof. unfold np_random_uniform. by destruct (uniform lo hi n (rng w)). Qed.

(** A draw scaled into [[lo, hi]] stays there. *)
Lemma scaled_draw_range (lo hi u : Q) :
  (lo <= hi)%Q → (0 <= u)%Q → (u < 1)%Q →
  (lo <= lo + (hi - lo) * u)%Q ∧ (lo + (hi - lo) * u <= hi)%Q.
Proof.
  intros Hlh Hu0 Hu1.
  assert (0 <= hi - lo)%Q as Hd.
  { rewrite <- (Qplus_opp_r lo). apply Qplus_le_compat; [done | apply Qle_refl]. }
  split.
  - rewrite <- (Qplus_0_r lo) at 1. apply Qplus_le_compat; [apply Qle_refl|].
    by apply Qmult_le_0_compat.
  - apply Qle_trans with (lo + (hi - lo) * 1)%Q.
    + apply Qplus_le_compat; [apply Qle_refl|].
      rewrite !(Qmult_comm (hi - lo)).
      apply Qmult_le_compat_r; [by apply Qlt_le_weak | done].
    + assert (lo + (hi - lo) * 1 == hi)%Q as -> by ring. apply Qle_refl.
Qed.

Lemma uniform_range lo hi n s :
  unit_interval → (lo <= hi)%Q →
  Forall (λ v, (lo <= v)%Q ∧ (v <= hi)%Q) (uniform lo hi n s).1.
Proof.
  intros Hu Hlh. revert s. induction n as [|n IH]; intros s; simpl; [done|].
  pose proof (Hu s) as [Hu0 Hu1].
  destruct (random_sample s) as [u s1]. specialize (IH s1).
  destruct (uniform lo hi n s1). simpl in *.
  constructor; [by apply scaled_draw_range | done].
Qed.

(** ** The constructor of [Pop] *)

Lemma on_return_py_index_nat {A} (l : list A) (i : nat) w
    (Q : A → World → Prop) :
  (∀ a, l !! i = Some a → Q a w) → on_return (py_index l (Z.of_nat i)) w Q.
Proof.
  intros HQ a w' E. unfold py_index in E.
  destruct (Z.ltb_spec (Z.of_nat i) 0); [lia|].
  destruct (_ && _); [|done]. rewrite Nat2Z.id in E.
  destruct (l !! i) as [b|] eqn:El; [|done].
  injection E as -> ->. by apply HQ.
Qed.

Ltac step_pop :=
  norm;
  lazymatch goal with
  | |- returns (np_random_uniform _ _ _) _ _ =>
      eapply returns_eq; [apply np_random_uniform_eq|]
  | |- on_return (np_random_uniform _ _ _) _ _ =>
      eapply on_return_eq; [apply np_random_uniform_eq|]
  | |- returns (py_index ?l 0%Z) _ _ =>
      eapply (returns_py_index l 0); [eassumption|]
  | |- returns (py_index ?l 1%Z) _ _ =>
      eapply (returns_py_index l 1); [eassumption|]
  | |- on_return (py_index ?l 0%Z) _ _ =>
      apply (on_return_py_index_nat l 0); intros ? ?
  | |- on_return (py_index ?l 1%Z) _ _ =>
      apply (on_return_py_index_nat l 1); intros ? ?
  | |- returns (for_each _ _ _) _ _ => fail
  | |- on_return (for_each _ _ _) _ _ => fail
  | _ => step
  end.

Ltac norm_in L := revert L; norm; intro L.

(** From the world at the head of the loop to [Pop_post]. *)
Lemma Pop_post_intro n xr yr xn0 xn1 yn0 yn1 w w0 w' pop :
  xr !! 0 = Some xn0 → xr !! 1 = Some xn1 →
  yr !! 0 = Some yn0 → yr !! 1 = Some yn1 →
  let xd := uniform (Pop_size.1 * xn0) (Pop_size.1 * xn1) n (rng w) in
  let yd := uniform (Pop_size.2 * yn0) (Pop_size.2 * yn1) n xd.2 in
  let v := length (vectors (engine w)) in
  for_each (seq 0 n) (create_cells_body xd.1 yd.1) (mkPop v (v + 1) []) w0
    = Ok (pop, w') →
  secs (engine w0) = secs (engine w) →
  topology (engine w0) = topology (engine w) →
  pps (engine w0) = pps (engine w) →
  netcons (engine w0) = netcons (engine w) →
  vectors (engine w0)
    = vectors (engine w) ++ [mkVector [] None; mkVector [] None] →
  heap w0 = heap w →
  rng w0 = yd.2 →
  Pop_post n xr yr w pop w'.
Proof.
  intros Hx0 Hx1 Hy0 Hy1 xd yd v E ES ET EP EN EV EH ER.
  pose proof (create_cells_loop xd.1 yd.1 n 0 (mkPop v (v + 1) []) w0) as L.
  destruct L as (w2 & E2 & Ext & Fr & Rng & Len & Mem).
  { unfold xd. by rewrite uniform_length. }
  { unfold yd. by rewrite uniform_length. }
  rewrite E2 in E. injection E as <- <-.
  exists xn0, xn1, yn0, yn1. do 4 (split; [done|]).
  cbv zeta. fold xd yd v. split_and!.
  - cbn. by rewrite EH.
  - by rewrite Rng.
  - eapply extends_trans; [|exact Ext].
    unfold extends. rewrite ES, ET, EP, EN, EV, EH.
    split_and!; try done. by apply prefix_app_r.
  - eapply frame_mono;
      [|eapply frame_trans; [by apply (frame_same (λ _, false)) | exact Fr]].
    done.
  - by rewrite Len, EN.
  - intros j Hj.
    destruct (lookup_lt_is_Some_2 xd.1 j) as [px Hpx];
      [unfold xd; by rewrite uniform_length|].
    destruct (lookup_lt_is_Some_2 yd.1 j) as [py Hpy];
      [unfold yd; by rewrite uniform_length|].
    exists px, py. split_and!; [done..|].
    specialize (Mem j px py Hj Hpx Hpy).
    rewrite ES, EP, EN, EV, EH, length_app in Mem. exact Mem.
Qed.

Lemma Pop_init_on_return n xr yr w :
  on_return (Pop_init n xr yr) w (Pop_post n xr yr w).
Proof.
  unfold Pop_init, create_cells. unfold_prims. repeat step_pop.
  intros pop w' E.
  eapply Pop_post_intro; [eassumption.. | exact E | | | | | | |];
    by norm.
Qed.

Lemma Pop_init_returns n xr yr xn0 xn1 yn0 yn1 w :
  xr !! 0 = Some xn0 → xr !! 1 = Some xn1 →
  yr !! 0 = Some yn0 → yr !! 1 = Some yn1 →
  returns (Pop_init n xr yr) w (Pop_post n xr yr w).
Proof.
  intros Hx0 Hx1 Hy0 Hy1.
  unfold Pop_init, create_cells. unfold_prims. repeat step_pop.
  match goal with
  | |- returns (for_each _ (create_cells_body ?xs ?ys) ?p) ?w0 _ =>
      destruct (create_cells_loop xs ys n 0 p w0) as (w' & E & _);
        [by rewrite uniform_length..|];
      eapply returns_eq; [exact E|]
  end.
  eapply Pop_post_intro; [eassumption.. | exact E | | | | | | |];
    by norm.
Qed.


(** ** Every call keeps the frame *)

Lemma on_return_mapM_reads {A B} (f : A → M B) (l : list A) w
    (Q : list B → World → Prop) :
  (∀ a w, on_return (f a) w (λ _ w', w' = w)) →
  (∀ bs, Q bs w) →
  on_return (mapM f l) w Q.
Proof.
  intros Hf HQ. eapply on_return_weaken with (Q := λ _ w', w' = w);
    [|by intros ? ? ->].
  clear HQ. induction l as [|a l IH]; simpl.
  - by apply on_return_ret.
  - apply on_return_bind. eapply on_return_weaken; [apply Hf|].
    intros b ? ->. apply on_return_bind.
    eapply on_return_weaken; [apply IH|].
    intros bs ? ->. by apply on_return_ret.
Qed.

Ltac frame_done :=
  first
    [ apply frame_same; by norm
    | eapply frame_alter;
        [ norm; rewrite ?list_alter_alter_eq; reflexivity
        | by norm
        | norm; rewrite ?list_alter_alter_eq; reflexivity
        | intros []; cbn; rewrite ?bool_decide_eq_true_2 by done;
          by split_and! ] ].

Lemma exec_frame k w :
  on_return (exec k) w (λ _ w', frame (λ c, moves c k) w w').
Proof.
  destruct k; cbn [exec moves].
  - apply on_return_bind. eapply on_return_eq; [apply HHCell_init_eq|].
    apply on_return_ret, HHCell_world_frame.
  - unfold add_current_stim. unfold_prims. repeat step. frame_done.
  - unfold set_recording. unfold_prims. repeat step. frame_done.
  - unfold plot_voltage. unfold_prims. repeat step; frame_done.
  - unfold create_synapse. unfold_prims. repeat step. frame_done.
  - unfold connect2pre. unfold_prims. repeat step. frame_done.
  - unfold set_position. unfold_prims. repeat step.
    eapply frame_alter; [by norm..|].
    intros []; cbn. split_and!; [done..|].
    intros Hm. by rewrite bool_decide_eq_true_2 in Hm.
  - apply on_return_bind.
    eapply on_return_weaken; [apply Pop_init_on_return|].
    intros pop w' (?&?&?&?&_&_&_&_&_&_&_&Fr&_). by apply on_return_ret.
  - unfold plot_net. unfold_prims. repeat step.
    apply on_return_mapM_reads; [intros a w1; by repeat step|].
    intros posX. repeat step.
    apply on_return_mapM_reads; [intros a w1; by repeat step|].
    intros posY. repeat step; frame_done.
  - unfold plot_raster. unfold_prims. repeat step; frame_done.
  - unfold_prims. repeat step. frame_done.
  - unfold_prims. repeat step. frame_done.
  - unfold_prims. repeat step. frame_done.
  - unfold_prims. repeat step. frame_done.
  - unfold_prims. repeat step. frame_done.
Qed.

Lemma exec_all_frame ks : ∀ w w',
  exec_all ks w = Ok (tt, w') → frame (λ c, existsb (moves c) ks) w w'.
Proof.
  induction ks as [|k ks IH]; intros w w' E.
  - injection E as <-. apply frame_refl.
  - cbn [exec_all] in E. apply bind_inv in E as ([] & w1 & E1 & E2).
    eapply frame_trans; [by apply (exec_frame k w) in E1 | by apply IH].
Qed.

(** ** What the frame keeps *)

Lemma times_connected_frame mv w w' d :
  frame mv w w' → d < length (secs (engine w)) →
  times_connected d w' = times_connected d w.
Proof.
  intros (_ & (t & Et & Ft) & _) Hd. unfold times_connected.
  rewrite Et, filter_app, length_app.
  assert (filter (λ k, child k = d) t = []) as ->; [|simpl; lia].
  clear Et. induction Ft as [|k t [Hk _] _ IH]; [done|].
  rewrite filter_cons_False; [done | lia].
Qed.

Lemma topology_closed_frame mv w w' :
  frame mv w w' → topology_closed w → topology_closed w'.
Proof.
  intros (Sp & (t & Et & Ft) & _) Hc. unfold topology_closed.
  pose proof (prefix_length _ _ Sp). rewrite Et. apply Forall_app. split.
  - eapply Forall_impl; [exact Hc|]. simpl. intros; lia.
  - eapply Forall_impl; [exact Ft|]. by intros k [_ ?].
Qed.

Lemma position_frame mv w w' c :
  frame mv w w' → mv c = false → is_Some (heap w !! c) →
  position w' c = position w c.
Proof.
  intros (_ & _ & Hh) Hm [o Ho].
  destruct (Hh c o Ho) as (o' & Ho' & _ & _ & Hxy).
  destruct (Hxy Hm) as [Hx Hy].
  unfold position. rewrite Ho, Ho'. simpl. by rewrite Hx, Hy.
Qed.

(** ** Worlds the scripts can reach have no dangling reference *)

Lemma cell_ok_mono e e' o :
  length (secs e) ≤ length (secs e') → length (pps e) ≤ length (pps e') →
  cell_ok e o → cell_ok e' o.
Proof.
  intros Hs Hp [Hso Hr]. split; [lia|].
  eapply Forall_impl; [exact Hr|]. simpl. intros; lia.
Qed.

Lemma netcon_ok_mono e e' k :
  length (secs e) ≤ length (secs e') → length (pps e) ≤ length (pps e') →
  netcon_ok e k → netcon_ok e' k.
Proof.
  intros Hs Hp [Hsrc Htgt]. split.
  - destruct (nc_source k); [lia | done].
  - destruct (nc_target k); [lia | done].
Qed.

Lemma well_formed_pps_closed w : well_formed w → pps_closed w.
Proof.
  intros [Hc Hn]. unfold pps_closed, references. apply Forall_app. split.
  - apply Forall_bind. eapply Forall_impl; [exact Hc|]. by intros o [_ ?].
  - apply Forall_forall. intros p (k & Hk & Hp)%list_elem_of_omap.
    rewrite Forall_forall in Hn. destruct (Hn k Hk) as [_ Ht].
    by rewrite Hp in Ht.
Qed.

Lemma well_formed_sources_closed w : well_formed w → sources_closed w.
Proof.
  intros [_ Hn]. unfold sources_closed.
  eapply Forall_impl; [exact Hn|]. by intros k [? _].
Qed.

(** The stores of [w'] extend those of [w], the cells of [w'] are those
    of [w] with one of them updated and some appended, and its connections
    are those of [w] with some appended. *)
Lemma well_formed_intro w w' f c new ncs :
  well_formed w →
  length (secs (engine w)) ≤ length (secs (engine w')) →
  length (pps (engine w)) ≤ length (pps (engine w')) →
  heap w' = alter f c (heap w) ++ new →
  netcons (engine w') = netcons (engine w) ++ ncs →
  (∀ o, heap w !! c = Some o → cell_ok (engine w) o →
        cell_ok (engine w') (f o)) →
  Forall (cell_ok (engine w')) new →
  Forall (netcon_ok (engine w')) ncs →
  well_formed w'.
Proof.
  intros [Hc Hn] Hs Hp Hh Hk Hf Hnew Hncs. split.
  - rewrite Hh. apply Forall_app. split; [|done].
    apply Forall_alter.
    + eapply Forall_impl; [exact Hc|]. intros o. by apply cell_ok_mono.
    + intros o Ho _. apply Hf; [done|]. by eapply Forall_lookup_1.
  - rewrite Hk. apply Forall_app. split; [|done].
    eapply Forall_impl; [exact Hn|]. intros k. by apply netcon_ok_mono.
Qed.

(** The same, when no cell is updated. *)
Lemma well_formed_grow w w' new ncs :
  well_formed w →
  length (secs (engine w)) ≤ length (secs (engine w')) →
  length (pps (engine w)) ≤ length (pps (engine w')) →
  heap w' = heap w ++ new →
  netcons (engine w') = netcons (engine w) ++ ncs →
  Forall (cell_ok (engine w')) new →
  Forall (netcon_ok (engine w')) ncs →
  well_formed w'.
Proof.
  intros Hw Hs Hp Hh Hk Hnew Hncs.
  eapply (well_formed_intro w w' id 0); try done.
  - by rewrite list_alter_id.
  - intros o _. by apply cell_ok_mono.
Qed.

Ltac wf_same Hw :=
  eapply (well_formed_grow _ _ [] []);
    [exact Hw | by norm | by norm | by norm; rewrite ?app_nil_r
    | by norm; rewrite ?app_nil_r | constructor | constructor].

Ltac step_known :=
  norm;
  lazymatch goal with
  | |- on_return (deref _) _ _ =>
      apply on_return_deref;
      let o := fresh "o" in
      let Ho := fresh "Ho" in
      intros o Ho; norm_in Ho; try (injection Ho as <-)
  | |- on_return (py_index _ (Z.of_nat _)) _ _ =>
      apply on_return_py_index_nat; intros ? ?
  | _ => step
  end.

Lemma create_cells_body_world xs ys i self w :
  on_return (create_cells_body xs ys i self) w (λ _ w',
    ∃ px py, w' = body_world px py i self w).
Proof.
  unfold create_cells_body. apply on_return_bind.
  eapply on_return_eq; [apply HHCell_init_eq|]. unfold HHCell_world.
  unfold set_recording, create_synapse, set_position. unfold_prims.
  repeat step_known. eexists _, _. unfold body_world. world_ext.
Qed.

Lemma body_world_well_formed px py i self w :
  well_formed w → well_formed (body_world px py i self w).
Proof.
  intros Hw. unfold body_world.
  eapply (well_formed_grow w _ [_] [_]); [exact Hw | norm; lia | norm; lia
    | by norm | by norm | |].
  - apply Forall_singleton. split; norm; cbn [soma member_cell]; [lia|].
    unfold cell_refs. cbn. apply Forall_singleton. lia.
  - apply Forall_singleton. split; cbn; norm; [lia | done].
Qed.

Lemma for_each_well_formed xs ys l : ∀ self w,
  well_formed w →
  on_return (for_each l (create_cells_body xs ys) self) w
    (λ _ w', well_formed w').
Proof.
  induction l as [|i l IH]; intros self w Hw; cbn [for_each].
  - by apply on_return_ret.
  - apply on_return_bind.
    eapply on_return_weaken; [apply create_cells_body_world|].
    intros s1 w1 (px & py & ->). by apply IH, body_world_well_formed.
Qed.

Lemma exec_well_formed k w :
  well_formed w → on_return (exec k) w (λ _ w', well_formed w').
Proof.
  intros Hw. destruct k; cbn [exec].
  - apply on_return_bind. eapply on_return_eq; [apply HHCell_init_eq|].
    apply on_return_ret. unfold HHCell_world.
    eapply (well_formed_grow w _ [_] []); [exact Hw | norm; lia | by norm
      | by norm | by norm; rewrite app_nil_r | | constructor].
    apply Forall_singleton. split; norm; cbn; [lia | constructor].
  - unfold add_current_stim. unfold_prims. repeat step.
    eapply (well_formed_intro w _ _ _ [] []); [exact Hw | by norm
      | norm; lia | norm; by rewrite app_nil_r | norm; by rewrite app_nil_r
      | | constructor | constructor].
    intros o' _ [Hso Hr]. split; [by norm|]. norm.
    unfold cell_refs in *. cbn [stim synlist nslist set_stim option_list].
    cbn [app]. constructor; [lia|].
    apply Forall_app in Hr as [_ Hr].
    eapply Forall_impl; [exact Hr|]. simpl. intros; lia.
  - unfold set_recording. unfold_prims. repeat step.
    eapply (well_formed_intro w _ _ _ [] []); [exact Hw | by norm
      | by norm | norm; rewrite ?list_alter_alter_eq; by rewrite app_nil_r
      | norm; by rewrite app_nil_r | | constructor | constructor].
    intros o' _ Hok. eapply cell_ok_mono; [| |by destruct o']; by norm.
  - unfold plot_voltage. unfold_prims. repeat step; wf_same Hw.
  - unfold create_synapse. unfold_prims. repeat step.
    eapply (well_formed_intro w _ _ _ [] []); [exact Hw | by norm
      | norm; lia | norm; by rewrite app_nil_r | norm; by rewrite app_nil_r
      | | constructor | constructor].
    intros o' _ [Hso Hr]. split; [by norm|]. norm.
    unfold cell_refs in *. cbn [stim synlist nslist append_synlist].
    rewrite !Forall_app in *. destruct Hr as (Hst & Hsy & Hns).
    split_and!.
    + eapply Forall_impl; [exact Hst|]. simpl. intros; lia.
    + eapply Forall_impl; [exact Hsy|]. simpl. intros; lia.
    + apply Forall_singleton. lia.
    + eapply Forall_impl; [exact Hns|]. simpl. intros; lia.
  - unfold connect2pre. unfold_prims. repeat step.
    match goal with Hin : _ ∈ synlist _ |- _ => rename Hin into Hsyn end.
    destruct Hw as [Hc Hn].
    eapply (well_formed_intro w _ _ _ [] [_]); [by split | by norm
      | by norm | norm; by rewrite app_nil_r | by norm | | constructor |].
    + intros o' _ Hok. eapply cell_ok_mono; [| |by destruct o']; by norm.
    + apply Forall_singleton. split; cbn; norm.
      * match goal with Hp : heap w !! _ = Some ?pre |- soma ?pre < _ =>
          by destruct (Forall_lookup_1 _ _ _ _ Hc Hp) end.
      * match goal with Ho : heap w !! _ = Some ?o, Hs : _ ∈ synlist ?o |- _ =>
          destruct (Forall_lookup_1 _ _ _ _ Hc Ho) as [_ Hr];
          unfold cell_refs in Hr; rewrite !Forall_app in Hr;
          destruct Hr as (_ & Hsy & _);
          rewrite Forall_forall in Hsy; by apply Hsy end.
  - unfold set_position. unfold_prims. repeat step.
    eapply (well_formed_intro w _ _ _ [] []); [exact Hw | by norm
      | by norm | norm; by rewrite app_nil_r | norm; by rewrite app_nil_r
      | | constructor | constructor].
    intros o' _ Hok. eapply cell_ok_mono; [| |by destruct o']; by norm.
  - apply on_return_bind.
    assert (on_return (Pop_init numCells xNormRange yNormRange) w
              (λ _ w', well_formed w')) as HPop.
    { unfold Pop_init, create_cells. unfold_prims. repeat step_pop.
      apply for_each_well_formed. wf_same Hw. }
    eapply on_return_weaken; [exact HPop|].
    intros pop w' Hw'. by apply on_return_ret.
  - unfold plot_net. unfold_prims. repeat step.
    apply on_return_mapM_reads; [intros a w1; by repeat step|].
    intros posX. repeat step.
    apply on_return_mapM_reads; [intros a w1; by repeat step|].
    intros posY. repeat step; wf_same Hw.
  - unfold plot_raster. unfold_prims. repeat step; wf_same Hw.
  - unfold_prims. repeat step. wf_same Hw.
  - unfold_prims. repeat step. wf_same Hw.
  - unfold_prims. repeat step. wf_same Hw.
  - unfold_prims. repeat step. wf_same Hw.
  - unfold_prims. repeat step. wf_same Hw.
Qed.

(** Whatever the scripts call, starting from a world without cells and
    without connections, no reference dangles: [pps_closed] and
    [sources_closed] hold of every world reached. *)
Lemma well_formed_reachable ks : ∀ w0 w,
  well_formed w0 → exec_all ks w0 = Ok (tt, w) → well_formed w.
Proof.
  induction ks as [|k ks IH]; intros w0 w Hw E.
  - by injection E as <-.
  - cbn [exec_all] in E. apply bind_inv in E as ([] & w1 & E1 & E2).
    eapply IH; [|exact E2]. by apply (exec_well_formed k w0 Hw) in E1.
Qed.

Lemma closed_reachable ks w0 w :
  heap w0 = [] → netcons (engine w0) = [] →
  exec_all ks w0 = Ok (tt, w) → pps_closed w ∧ sources_closed w.
Proof.
  intros Hh Hn E.
  assert (well_formed w) as Hw.
  { eapply well_formed_reachable; [|exact E].
    unfold well_formed. rewrite Hh, Hn. by split. }
  split; [by apply well_formed_pps_closed | by apply well_formed_sources_closed].
Qed.

(** * Properties of the scripts *)

(** C1.  On a cell with exactly one synapse, [connect2pre] with
    [synid = 0] returns and creates a connection to that synapse, and with
    [synid = 1] it raises [IndexError]; whatever the synapse list, an index
    at or beyond its length (so any index that exceeds the synapse count)
    raises [IndexError].  Both versions of the method agree, the one of
    tutorial_4b.py also keeping the connection in [nclist]. *)
Theorem connect2pre_index_contract w self preCell o pre delay weight :
  heap w !! self = Some o → heap w !! preCell = Some pre →
  (∀ syn, synlist o = [syn] →
     (∃ w', connect2pre self preCell 0 delay weight w = Ok (tt, w') ∧
            netcons (engine w')
              = netcons (engine w) ++ [connection pre syn delay weight] ∧
            nclist <$> heap w' !! self
              = Some (nclist o ++ [length (netcons (engine w))])) ∧
     (∃ w', connect2pre_4a self preCell 0 delay weight w = Ok (tt, w') ∧
            netcons (engine w')
              = netcons (engine w) ++ [connection pre syn delay weight]) ∧
     connect2pre self preCell 1 delay weight w = Raise IndexError ∧
     connect2pre_4a self preCell 1 delay weight w = Raise IndexError) ∧
  (∀ synid, (Z.of_nat (length (synlist o)) <= synid)%Z →
     connect2pre self preCell synid delay weight w = Raise IndexError ∧
     connect2pre_4a self preCell synid delay weight w = Raise IndexError).
Proof.
  intros Ho Hp. split.
  - intros syn Hs.
    assert (py_index (synlist o) 0 w = Ok (syn, w)) as Hi
      by (apply py_index_nonneg; [lia | by rewrite Hs]).
    split_and!.
    + eexists. split; [by eapply connect2pre_eq|]. norm. split; [done|].
      by rewrite list_lookup_alter_eq, Ho.
    + eexists. split; [by eapply connect2pre_4a_eq|]. by norm.
    + eapply connect2pre_Raise; [done..|].
      apply py_index_out_of_range. rewrite Hs. simpl. lia.
    + eapply connect2pre_4a_Raise; [done..|].
      apply py_index_out_of_range. rewrite Hs. simpl. lia.
  - intros synid Hi.
    split; [eapply connect2pre_Raise | eapply connect2pre_4a_Raise];
      try done; apply py_index_out_of_range; lia.
Qed.

(** C10.  On a cell whose synapse list is not empty, [connect2pre] with
    [synid = -1] returns and wires the connection to the synapse created
    last; [IndexError] is raised exactly when the index is at or above the
    synapse count or below minus the synapse count. *)
Theorem connect2pre_negative_index w self preCell o pre delay weight :
  heap w !! self = Some o → heap w !! preCell = Some pre →
  (synlist o ≠ [] →
     ∃ syn, last (synlist o) = Some syn ∧
       (∃ w', connect2pre self preCell (-1) delay weight w = Ok (tt, w') ∧
              netcons (engine w')
                = netcons (engine w) ++ [connection pre syn delay weight]) ∧
       (∃ w', connect2pre_4a self preCell (-1) delay weight w = Ok (tt, w') ∧
              netcons (engine w')
                = netcons (engine w) ++ [connection pre syn delay weight])) ∧
  (∀ synid,
     let n := Z.of_nat (length (synlist o)) in
     (connect2pre self preCell synid delay weight w = Raise IndexError
        ↔ (n <= synid ∨ synid < - n)%Z) ∧
     (connect2pre_4a self preCell synid delay weight w = Raise IndexError
        ↔ (n <= synid ∨ synid < - n)%Z)).
Proof.
  intros Ho Hp. split.
  - intros Hne.
    destruct (last (synlist o)) as [syn|] eqn:Hl;
      [|by apply last_None in Hl].
    exists syn. split; [done|].
    assert (py_index (synlist o) (-1) w = Ok (syn, w)) as Hi.
    { rewrite last_lookup in Hl.
      assert (0 < length (synlist o)) by (destruct (synlist o); simpl; [done|lia]).
      apply py_index_negative; [lia..|].
      by replace (Z.to_nat (Z.of_nat (length (synlist o)) + -1))
        with (pred (length (synlist o))) by lia. }
    split.
    + eexists. split; [by eapply connect2pre_eq|]. by norm.
    + eexists. split; [by eapply connect2pre_4a_eq|]. by norm.
  - intros synid n.
    assert ((n <= synid ∨ synid < - n)%Z ∨ (- n <= synid < n)%Z) as [Hout|Hin]
      by lia.
    + pose proof (py_index_out_of_range (synlist o) synid w Hout) as Hi.
      rewrite (connect2pre_Raise _ _ _ _ _ _ delay weight _ Ho Hp Hi).
      rewrite (connect2pre_4a_Raise _ _ _ _ _ _ delay weight _ Ho Hp Hi).
      by split.
    + destruct (py_index_in_range (synlist o) synid w Hin) as (syn & Hi & _).
      rewrite (connect2pre_eq _ _ _ _ _ _ _ delay weight Ho Hp Hi).
      rewrite (connect2pre_4a_eq _ _ _ _ _ _ _ delay weight Ho Hp Hi).
      split; (split; [done | lia]).
Qed.

Lemma referred_inv w p :
  referred w p ↔
  (∃ c o, heap w !! c = Some o ∧ p ∈ cell_refs o) ∨
  (∃ k, k ∈ netcons (engine w) ∧ nc_target k = Some p).
Proof.
  unfold referred, references.
  rewrite elem_of_app, list_elem_of_bind, list_elem_of_omap.
  split; (intros [Hc|Hn]; [left|right]); [| done | | done].
  - destruct Hc as (o & Hp & [c Hc]%list_elem_of_lookup_1). by exists c, o.
  - destruct Hc as (c & o & Hc & Hp). exists o. split; [done|].
    by eapply list_elem_of_lookup_2.
Qed.

(** C5.  [add_current_stim(d)] leaves the cell holding a stimulus of
    amplitude 0.3 and duration 1 that starts at [d], on the distal end
    (position 1.0) of the dendrite.  Called twice, it makes two such
    stimuli and leaves the cell holding one, the second, with the second
    delay: [stim] refers to the second, every other attribute of the
    cell is as it was (no list has grown), no other cell and nothing else
    in the engine has changed, and, in a world whose references all name
    point processes that exist, nothing refers to the first stimulus any
    more while the second is referred to by this cell alone. *)
Theorem add_current_stim_overwrites w c o :
  heap w !! c = Some o →
  (∀ d, ∃ w1 p,
     add_current_stim c d w = Ok (tt, w1) ∧
     stimulus w1 c = Some p ∧ is_current_stim p (dend o) d) ∧
  (∀ d1 d2, ∃ w1 w2 p1 p2 o2,
     add_current_stim c d1 w = Ok (tt, w1) ∧
     add_current_stim c d2 w1 = Ok (tt, w2) ∧
     pps (engine w2) = pps (engine w) ++ [p1; p2] ∧
     is_current_stim p1 (dend o) d1 ∧ is_current_stim p2 (dend o) d2 ∧
     stimulus w2 c = Some p2 ∧
     heap w2 !! c = Some o2 ∧
     stim o2 = Some (length (pps (engine w)) + 1) ∧
     synlist o2 = synlist o ∧ nclist o2 = nclist o ∧ nslist o2 = nslist o ∧
     soma o2 = soma o ∧ dend o2 = dend o ∧
     soma_v_vec o2 = soma_v_vec o ∧ dend_v_vec o2 = dend_v_vec o ∧
     t_vec o2 = t_vec o ∧ x o2 = x o ∧ y o2 = y o ∧
     length (heap w2) = length (heap w) ∧
     (∀ c', c' ≠ c → heap w2 !! c' = heap w !! c') ∧
     secs (engine w2) = secs (engine w) ∧
     topology (engine w2) = topology (engine w) ∧
     netcons (engine w2) = netcons (engine w) ∧
     vectors (engine w2) = vectors (engine w) ∧
     tstop (engine w2) = tstop (engine w) ∧
     rng w2 = rng w ∧ plt w2 = plt w ∧ stdout w2 = stdout w ∧
     (pps_closed w →
        ¬ referred w2 (length (pps (engine w))) ∧
        referred w2 (length (pps (engine w)) + 1) ∧
        (∀ c' o', heap w2 !! c' = Some o' →
           length (pps (engine w)) + 1 ∈ cell_refs o' → c' = c) ∧
        (∀ k, k ∈ netcons (engine w2) →
           nc_target k ≠ Some (length (pps (engine w)) + 1)))).
Proof.
  intros Ho. split.
  - intros d. eexists _, _. split; [by eapply add_current_stim_eq|].
    unfold stimulus. norm. rewrite list_lookup_alter_eq, Ho. simpl. norm.
    split; [done|]. by split_and!.
  - intros d1 d2.
    pose proof (add_current_stim_eq w c o d1 Ho) as E1.
    set (n := length (pps (engine w))) in *.
    set (w1 := with_engine _ _) in E1.
    assert (heap w1 !! c = Some (set_stim n o)) as Ho1.
    { unfold w1. norm. by rewrite list_lookup_alter_eq, Ho. }
    pose proof (add_current_stim_eq w1 c _ d2 Ho1) as E2.
    set (w2 := with_engine _ _) in E2.
    assert (heap w2 = alter (set_stim (n + 1)) c (heap w)) as Hheap.
    { unfold w2, w1. norm. rewrite list_alter_alter_eq.
      apply list_alter_ext; [|done]. intros o' _. by destruct o'. }
    assert (heap w2 !! c = Some (set_stim (n + 1) o)) as Ho2
      by by rewrite Hheap, list_lookup_alter_eq, Ho.
    assert (∀ c', c' ≠ c → heap w2 !! c' = heap w !! c') as Hother.
    { intros c' Hne. rewrite Hheap. by apply list_lookup_alter_ne. }
    assert (netcons (engine w2) = netcons (engine w)) as Hnc
      by (unfold w2, w1; by norm).
    eexists w1, w2, _, _, (set_stim (n + 1) o).
    split; [exact E1|]. split; [exact E2|].
    split; [unfold w2, w1; norm; reflexivity|].
    split; [by split_and!|]. split; [by split_and!|].
    split.
    { unfold stimulus. rewrite Ho2. simpl. unfold w2, w1, n. by norm. }
    split; [exact Ho2|]. do 11 (split; [done|]).
    split; [by rewrite Hheap, length_alter|].
    split; [exact Hother|].
    do 8 (split; [unfold w2, w1; by norm|]).
    intros Hcl.
    assert (∀ p, referred w p → p < n) as Hlt.
    { intros p Hp. unfold pps_closed in Hcl.
      rewrite Forall_forall in Hcl. by apply Hcl. }
    assert (∀ c' o' p, heap w2 !! c' = Some o' → p ∈ cell_refs o' →
              (c' = c ∧ p = n + 1) ∨ p < n) as Hcells.
    { intros c' o' p Ho' Hp. destruct (decide (c' = c)) as [->|Hne].
      - rewrite Ho2 in Ho'. injection Ho' as <-.
        unfold cell_refs in Hp. cbn [stim synlist nslist set_stim] in Hp.
        apply elem_of_app in Hp as [Hp|Hp].
        + apply list_elem_of_singleton in Hp. by left.
        + right. apply Hlt, referred_inv. left. exists c, o.
          split; [done|]. unfold cell_refs. apply elem_of_app. by right.
      - right. rewrite (Hother _ Hne) in Ho'.
        apply Hlt, referred_inv. left. by exists c', o'. }
    assert (∀ k p, k ∈ netcons (engine w2) → nc_target k = Some p → p < n)
      as Hnets.
    { intros k p Hk Hp. rewrite Hnc in Hk.
      apply Hlt, referred_inv. right. by exists k. }
    split_and!.
    + intros [(c' & o' & Ho' & Hp)|(k & Hk & Hp)]%referred_inv.
      * destruct (Hcells _ _ _ Ho' Hp) as [[_ ?]|?]; lia.
      * specialize (Hnets _ _ Hk Hp). lia.
    + apply referred_inv. left. exists c, (set_stim (n + 1) o).
      split; [exact Ho2|]. unfold cell_refs. cbn [stim set_stim].
      apply elem_of_app. left. by apply list_elem_of_singleton.
    + intros c' o' Ho' Hp.
      destruct (Hcells _ _ _ Ho' Hp) as [[? _]|?]; [done | lia].
    + intros k Hk Hp. specialize (Hnets _ _ Hk Hp). lia.
Qed.

(** What [HHCell()] leaves in the world, and what every later call keeps
    of it. *)
Lemma HHCell_init_built w :
  let so := length (secs (engine w)) in
  let w1 := HHCell_world w in
  heap w1 !! length (heap w) = Some (new_cell so) ∧
  secs (engine w1) !! so = Some soma_section ∧
  secs (engine w1) !! (so + 1) = Some dend_section ∧
  topology (engine w1) = topology (engine w) ++ [mkConnect (so + 1) 0 (Seg so 1)] ∧
  length (secs (engine w1)) = so + 2.
Proof. unfold HHCell_world. by split_and!; norm. Qed.

Lemma later_calls_keep_sections ks w1 w2 c o s sec :
  exec_all ks w1 = Ok (tt, w2) →
  heap w1 !! c = Some o → secs (engine w1) !! s = Some sec →
  (∃ o2, heap w2 !! c = Some o2 ∧ soma o2 = soma o ∧ dend o2 = dend o) ∧
  secs (engine w2) !! s = Some sec.
Proof.
  intros E Ho Hs. apply exec_all_frame in E as (Sp & _ & Hh).
  split; [|by eapply prefix_lookup_Some].
  destruct (Hh c o Ho) as (o2 & ? & ? & ? & _). by exists o2.
Qed.

(** C3.  After [HHCell()] the soma has the active set with
    [gnabar = 0.12], [gkbar = 0.036], [gl = 0.0003], [el = -54.3] and no
    passive set, the dendrite has the passive set with [g_pas = 0.001],
    [e_pas = -65] and no active set, and both have [Ra = 100] and
    [cm = 1]; no later call changes either section. *)
Theorem biophysics_after_construction w :
  ∃ c w1 o so de,
    HHCell_init w = Ok (c, w1) ∧ heap w1 !! c = Some o ∧
    secs (engine w1) !! soma o = Some so ∧
    secs (engine w1) !! dend o = Some de ∧
    sec_mechs so = ["hh"] ∧ has_active_set so ∧ lacks_passive_set so ∧
    sec_mechs de = ["pas"] ∧ has_passive_set de ∧ lacks_active_set de ∧
    sec_attrs so !! "Ra" = Some 100%Q ∧ sec_attrs so !! "cm" = Some 1%Q ∧
    sec_attrs de !! "Ra" = Some 100%Q ∧ sec_attrs de !! "cm" = Some 1%Q ∧
    ∀ ks w2, exec_all ks w1 = Ok (tt, w2) →
      ∃ o2, heap w2 !! c = Some o2 ∧ soma o2 = soma o ∧ dend o2 = dend o ∧
            secs (engine w2) !! soma o = Some so ∧
            secs (engine w2) !! dend o = Some de.
Proof.
  destruct (HHCell_init_built w) as (Hc & Hso & Hde & _ & _).
  exists (length (heap w)), (HHCell_world w), (new_cell (length (secs (engine w)))),
    soma_section, dend_section.
  split; [apply HHCell_init_eq|]. do 3 (split; [done|]).
  split; [done|]. split.
  { split_and!; [apply list_elem_of_singleton; done | done..]. }
  split.
  { split_and!; [|done..]. intros ?%list_elem_of_singleton. done. }
  split; [done|]. split.
  { split_and!; [apply list_elem_of_singleton; done | done..]. }
  split.
  { split_and!; [|done..]. intros ?%list_elem_of_singleton. done. }
  do 4 (split; [done|]).
  intros ks w2 E.
  destruct (later_calls_keep_sections ks _ _ _ _ _ _ E Hc Hso)
    as ((o2 & ? & ? & ?) & ?).
  destruct (later_calls_keep_sections ks _ _ _ _ _ _ E Hc Hde) as (_ & ?).
  by exists o2.
Qed.

Lemma times_connected_fresh w s :
  topology_closed w → length (secs (engine w)) ≤ s → times_connected s w = 0.
Proof.
  unfold topology_closed, times_connected. intros Hc Hs.
  induction Hc as [|k t Hk _ IH]; [done|].
  rewrite filter_cons_False; [done | lia].
Qed.

(** Worlds that start without topology stay closed. *)
Lemma topology_closed_reachable ks w0 w :
  topology (engine w0) = [] → exec_all ks w0 = Ok (tt, w) → topology_closed w.
Proof.
  intros Ht E. eapply topology_closed_frame; [by eapply exec_all_frame|].
  unfold topology_closed. by rewrite Ht.
Qed.

(** C4.  [HHCell()] connects the 0 end of the dendrite to position 1 of
    the soma, once; whatever the script calls afterwards, that connection
    is still there and the dendrite has still been connected exactly
    once. *)
Theorem topology_connected_once w :
  topology_closed w →
  ∃ c w1 o,
    HHCell_init w = Ok (c, w1) ∧ heap w1 !! c = Some o ∧
    mkConnect (dend o) 0 (Seg (soma o) 1) ∈ topology (engine w1) ∧
    times_connected (dend o) w1 = 1 ∧
    ∀ ks w2, exec_all ks w1 = Ok (tt, w2) →
      (∃ o2, heap w2 !! c = Some o2 ∧ soma o2 = soma o ∧ dend o2 = dend o) ∧
      mkConnect (dend o) 0 (Seg (soma o) 1) ∈ topology (engine w2) ∧
      times_connected (dend o) w2 = 1.
Proof.
  intros Hcl.
  destruct (HHCell_init_built w) as (Hc & Hso & Hde & Ht & Hl).
  set (so := length (secs (engine w))) in *.
  assert (times_connected (so + 1) (HHCell_world w) = 1) as Hone.
  { unfold times_connected. rewrite Ht, filter_app, length_app.
    fold (times_connected (so + 1) w).
    rewrite times_connected_fresh by (done || lia).
    by rewrite filter_cons_True. }
  exists (length (heap w)), (HHCell_world w), (new_cell so).
  split; [apply HHCell_init_eq|]. split; [done|].
  cbn [dend soma new_cell]. split.
  { rewrite Ht. apply elem_of_app. right. by apply list_elem_of_singleton. }
  split; [done|].
  intros ks w2 E. pose proof (exec_all_frame _ _ _ E) as Fr.
  destruct Fr as (Sp & (t & Et & Ft) & Hh).
  split_and!.
  - destruct (Hh _ _ Hc) as (o2 & ? & ? & ? & _). by exists o2.
  - rewrite Et, Ht. apply elem_of_app. left. apply elem_of_app. right.
    by apply list_elem_of_singleton.
  - etrans; [|exact Hone].
    eapply (times_connected_frame (λ c, existsb (moves c) ks));
      [by apply exec_all_frame | lia].
Qed.

(** ** Populations *)

Lemma built_member_position w so v p n c tvec idvec id px py :
  built_member w so v p n c tvec idvec id px py →
  position w c = Some (px, py).
Proof. intros (Hc & _). unfold position. by rewrite Hc. Qed.

(** The members of a population sit, in creation order, at the pairs of
    the two arrays of draws. *)
Lemma Pop_post_positions n xr yr w pop w1 :
  Pop_post n xr yr w pop w1 →
  ∃ xn0 xn1 yn0 yn1,
    xr !! 0 = Some xn0 ∧ xr !! 1 = Some xn1 ∧
    yr !! 0 = Some yn0 ∧ yr !! 1 = Some yn1 ∧
    let xd := uniform (Pop_size.1 * xn0) (Pop_size.1 * xn1) n (rng w) in
    let yd := uniform (Pop_size.2 * yn0) (Pop_size.2 * yn1) n xd.2 in
    position w1 <$> cells pop = Some <$> zip xd.1 yd.1.
Proof.
  intros (xn0 & xn1 & yn0 & yn1 & ? & ? & ? & ? & HP).
  exists xn0, xn1, yn0, yn1. do 4 (split; [done|]).
  cbv zeta in *. destruct HP as (-> & _ & _ & _ & _ & Mem).
  cbn [cells]. apply list_eq. intros i.
  rewrite !list_lookup_fmap, lookup_zip_with.
  destruct (decide (i < n)) as [Hi|Hi].
  - destruct (Mem i Hi) as (px & py & -> & -> & Hb).
    rewrite lookup_seq_lt by done. simpl.
    by rewrite (built_member_position _ _ _ _ _ _ _ _ _ _ _ Hb).
  - rewrite lookup_seq_ge by lia.
    rewrite (lookup_ge_None_2 (uniform _ _ n (rng w)).1);
      [done | rewrite uniform_length; lia].
Qed.

(** The members of a population are the cells its constructor created,
    in order. *)
Lemma Pop_post_member n xr yr w pop w1 i c :
  Pop_post n xr yr w pop w1 → cells pop !! i = Some c →
  i < n ∧ c = length (heap w) + i ∧
  ∃ px py,
    built_member w1 (length (secs (engine w)) + 2 * i)
      (length (vectors (engine w)) + 2 + 3 * i)
      (length (pps (engine w)) + i) (length (netcons (engine w)) + i) c
      (spkt pop) (spkid pop) i px py.
Proof.
  intros (xn0 & xn1 & yn0 & yn1 & _ & _ & _ & _ & HP) Hc.
  cbv zeta in HP. destruct HP as (-> & _ & _ & _ & _ & Mem).
  cbn [cells spkt spkid] in *. apply lookup_seq in Hc as [-> Hi].
  split; [done|]. split; [done|].
  destruct (Mem i Hi) as (px & py & _ & _ & Hb). by exists px, py.
Qed.

(** The connections [Pop(...)] makes are the spike detectors of its
    members, in creation order. *)
Lemma Pop_post_netcons n xr yr w pop w1 :
  Pop_post n xr yr w pop w1 →
  netcons (engine w1)
    = netcons (engine w)
      ++ ((λ i, spike_detector (length (secs (engine w)) + 2 * i)
                  (spkt pop) (spkid pop) i) <$> seq 0 n).
Proof.
  intros HP.
  destruct HP as (xn0 & xn1 & yn0 & yn1 & _ & _ & _ & _ & HP).
  cbv zeta in HP. destruct HP as (Hpop & _ & Ext & _ & Len & Mem).
  destruct Ext as (_ & _ & _ & [ncs Hn] & _).
  rewrite Hn. f_equal. rewrite Hn, length_app in Len.
  apply list_eq. intros j. rewrite list_lookup_fmap.
  destruct (decide (j < n)) as [Hj|Hj].
  - rewrite lookup_seq_lt by done. cbn [fmap option_fmap option_map Nat.add].
    destruct (Mem j Hj) as (px & py & _ & _ & _ & _ & _ & _ & Hnc).
    rewrite Hn, lookup_app_r in Hnc by lia.
    replace (length (netcons (engine w)) + j - length (netcons (engine w)))
      with j in Hnc by lia.
    rewrite Hnc, Hpop. done.
  - rewrite lookup_seq_ge by lia. apply lookup_ge_None. lia.
Qed.

(** The two spike vectors of a population are the first two vectors its
    constructor allocates, and they are empty when it returns. *)
Lemma Pop_init_spike_vectors n xr yr w :
  on_return (Pop_init n xr yr) w (λ pop w1,
    spkt pop = length (vectors (engine w)) ∧
    spkid pop = length (vectors (engine w)) + 1 ∧
    vectors (engine w1) !! spkt pop = Some (mkVector [] None) ∧
    vectors (engine w1) !! spkid pop = Some (mkVector [] None)).
Proof.
  unfold Pop_init, create_cells. unfold_prims. repeat step_pop.
  intros pop w' E.
  match type of E with
  | for_each _ (create_cells_body ?xs ?ys) ?p ?w0 = _ =>
      destruct (create_cells_loop xs ys n 0 p w0) as (w2 & E2 & Ext & _);
        [by rewrite uniform_length..|]
  end.
  rewrite E2 in E. injection E as <- <-. cbn [spkt spkid].
  destruct Ext as (_ & _ & _ & _ & Hv & _). revert Hv. norm. intros Hv.
  split; [done|]. split; [lia|]. split.
  - eapply prefix_lookup_Some; [|exact Hv]. by norm.
  - eapply prefix_lookup_Some; [|exact Hv].
    replace (S (length (vectors (engine w))))
      with (length (vectors (engine w)) + 1) by lia. by norm.
Qed.

(** A detector watches the middle of the soma it was made for, and no
    other. *)
Lemma filter_detectors src so tv iv n : ∀ a,
  filter (λ k, same_ref (nc_source k) (ref_v (Seg src 0.5)))
         ((λ j, spike_detector (so + 2 * j) tv iv j) <$> seq a n)
    = (λ j, spike_detector (so + 2 * j) tv iv j)
        <$> filter (λ j, so + 2 * j = src) (seq a n).
Proof.
  induction n as [|n IH]; intros a; [done|]. cbn [seq fmap list_fmap].
  destruct (decide (so + 2 * a = src)) as [Ha|Ha].
  - rewrite !filter_cons_True; [| done |].
    + cbn [fmap list_fmap]. f_equal. apply IH.
    + cbn. rewrite Qeq_bool_refl, andb_true_r. by apply bool_decide_pack.
  - rewrite !filter_cons_False; [apply IH | done |].
    cbn. rewrite Qeq_bool_refl, andb_true_r. by intros ?%bool_decide_unpack.
Qed.

Lemma filter_seq_single so i n : ∀ a,
  filter (λ j, so + 2 * j = so + 2 * i) (seq a n)
    = if decide (a ≤ i < a + n) then [i] else [].
Proof.
  induction n as [|n IH]; intros a; cbn [seq].
  - case_decide; [lia | done].
  - destruct (decide (a = i)) as [->|Hne].
    + rewrite filter_cons_True, IH by done.
      repeat case_decide; try lia; done.
    + rewrite filter_cons_False, IH by lia.
      repeat case_decide; try lia; done.
Qed.

Lemma filter_old_sources src pos bound l :
  Forall (λ k, match nc_source k with
               | ref_v s => seg_sec s < bound
               | ref_t => True
               end) l →
  bound ≤ src →
  filter (λ k, same_ref (nc_source k) (ref_v (Seg src pos))) l = [].
Proof.
  intros Hl Hb. induction Hl as [|k l Hk _ IH]; [done|].
  rewrite filter_cons_False; [done|].
  destruct (nc_source k) as [s|]; cbn; [|by intros []].
  intros [?%bool_decide_unpack _]%andb_prop_elim. lia.
Qed.

(** One crossing of the [i]-th member: its time goes to [spkt], its
    creation index to [spkid]. *)
Lemma member_fires_eq n xr yr w pop w1 i t e :
  Pop_post n xr yr w pop w1 → sources_closed w → i < n →
  netcons e = netcons (engine w1) →
  member_fires w1 pop e (i, t)
    = with_vectors (alter (push (inject_Z (Z.of_nat i))) (spkid pop)
                    ∘ alter (push t) (spkt pop)) e.
Proof.
  intros HP Hcl Hi Hn.
  assert (cells pop !! i = Some (length (heap w) + i)) as Hc.
  { destruct HP as (?&?&?&?&_&_&_&_&HP). cbv zeta in HP.
    destruct HP as (-> & _). cbn [cells]. by apply lookup_seq_lt. }
  destruct (Pop_post_member _ _ _ _ _ _ _ _ HP Hc)
    as (_ & _ & px & py & Hh & _).
  unfold member_fires, fires, spike. cbn [fst snd]. rewrite Hc, Hh.
  cbn [soma member_cell]. rewrite Hn, (Pop_post_netcons _ _ _ _ _ _ HP).
  rewrite filter_app, (filter_old_sources _ _ _ _ Hcl) by lia.
  rewrite filter_detectors, filter_seq_single, decide_True by lia.
  done.
Qed.

(** A run of crossings, from any state of the engine that has the
    connections of [w1]. *)
Lemma members_fire n xr yr w pop w1 :
  Pop_post n xr yr w pop w1 → sources_closed w → spkt pop ≠ spkid pop →
  ∀ evs e ts ids,
    Forall (λ ev : nat * Q, ev.1 < n) evs →
    netcons e = netcons (engine w1) →
    vectors e !! spkt pop = Some (mkVector ts None) →
    vectors e !! spkid pop = Some (mkVector ids None) →
    let e' := foldl (member_fires w1 pop) e evs in
    vectors e' !! spkt pop = Some (mkVector (ts ++ evs.*2) None) ∧
    vectors e' !! spkid pop
      = Some (mkVector (ids ++ ((λ ev, inject_Z (Z.of_nat ev.1)) <$> evs))
                       None) ∧
    netcons e' = netcons (engine w1) ∧
    ∀ v, v ≠ spkt pop → v ≠ spkid pop → vectors e' !! v = vectors e !! v.
Proof.
  intros HP Hcl Hne evs.
  induction evs as [|[i t] evs IH]; intros e ts ids Hall Hn Ht Hi.
  - cbn. by rewrite !app_nil_r.
  - apply Forall_cons in Hall as [Hlt Hall]. cbn [fst] in Hlt.
    cbn [foldl]. rewrite (member_fires_eq _ _ _ _ _ _ _ _ _ HP Hcl Hlt Hn).
    set (e1 := with_vectors _ e).
    assert (vectors e1 !! spkt pop = Some (mkVector (ts ++ [t]) None)) as Ht1.
    { unfold e1. cbn [vectors with_vectors compose].
      rewrite list_lookup_alter_ne by done.
      by rewrite list_lookup_alter_eq, Ht. }
    assert (vectors e1 !! spkid pop
              = Some (mkVector (ids ++ [inject_Z (Z.of_nat i)]) None)) as Hi1.
    { unfold e1. cbn [vectors with_vectors compose].
      by rewrite list_lookup_alter_eq, list_lookup_alter_ne, Hi. }
    destruct (IH e1 _ _ Hall Hn Ht1 Hi1) as (Ht2 & Hi2 & Hn2 & Hv2).
    cbn [fmap list_fmap fst snd]. rewrite <- (assoc_L app) in Ht2, Hi2.
    split; [exact Ht2|]. split; [exact Hi2|]. split; [exact Hn2|].
    intros v Hvt Hvi. rewrite Hv2 by done. unfold e1.
    cbn [vectors with_vectors compose].
    by rewrite !list_lookup_alter_ne.
Qed.

(** C6.  [Pop(...)] allocates the two vectors [spkt] and [spkid], which
    are new, distinct, empty and shared by all its members, and gives
    each member one connection that watches the middle of its soma and
    records into them under the member's creation index; of the
    connections the constructor made, any whose source is the soma of
    that cell logs under that index.  So, in a world whose connections
    watch sections that exist, whenever members fire, the engine appends
    to [spkid] the creation index of each member that fired and to
    [spkt] the time, in the order of the crossings, and touches no other
    vector. *)
Theorem spike_id_is_creation_index w n xr yr pop w1 :
  Pop_init n xr yr w = Ok (pop, w1) →
  (spkt pop = length (vectors (engine w)) ∧
   spkid pop = length (vectors (engine w)) + 1 ∧
   vectors (engine w1) !! spkt pop = Some (mkVector [] None) ∧
   vectors (engine w1) !! spkid pop = Some (mkVector [] None)) ∧
  (∀ i c, cells pop !! i = Some c →
    ∃ o, heap w1 !! c = Some o ∧
      (∃ k, netcons (engine w1) !! k
              = Some (spike_detector (soma o) (spkt pop) (spkid pop) i)) ∧
      (∀ k nc, length (netcons (engine w)) ≤ k →
        netcons (engine w1) !! k = Some nc → nc_sec nc = soma o →
        nc_record nc = Some (spkt pop, spkid pop, i)) ∧
      (sources_closed w → ∀ t,
         vectors (fires w1 c t (engine w1))
           = alter (push (inject_Z (Z.of_nat i))) (spkid pop)
               (alter (push t) (spkt pop) (vectors (engine w1))))) ∧
  (sources_closed w →
   ∀ evs : list (nat * Q),
     Forall (λ ev, ev.1 < n) evs →
     let e' := foldl (member_fires w1 pop) (engine w1) evs in
     vec_data <$> vectors e' !! spkid pop
       = Some ((λ ev, inject_Z (Z.of_nat ev.1)) <$> evs) ∧
     vec_data <$> vectors e' !! spkt pop = Some (evs.*2) ∧
     ∀ v, v ≠ spkt pop → v ≠ spkid pop →
       vectors e' !! v = vectors (engine w1) !! v).
Proof.
  intros E. apply Pop_init_on_return in E as HP.
  destruct (Pop_init_spike_vectors _ _ _ _ _ _ E) as (Hst & Hsi & Hvt & Hvi).
  split; [done|]. split.
  - intros i c Hc.
    destruct (Pop_post_member _ _ _ _ _ _ _ _ HP Hc)
      as (Hi & -> & px & py & Hh & _ & _ & _ & Hn).
    eexists. split; [exact Hh|]. cbn [soma member_cell].
    split; [by eexists|]. split.
    + intros k nc Hk Hnc Hsec.
      assert (k < length (netcons (engine w)) + n) as Hlt.
      { destruct HP as (?&?&?&?&_&_&_&_&HP). cbv zeta in HP.
        destruct HP as (_ & _ & _ & _ & <- & _). by eapply lookup_lt_Some. }
      assert (cells pop !! (k - length (netcons (engine w)))
                = Some (length (heap w) + (k - length (netcons (engine w)))))
        as Hc'.
      { destruct HP as (?&?&?&?&_&_&_&_&HP). cbv zeta in HP.
        destruct HP as (-> & _). cbn [cells]. apply lookup_seq_lt. lia. }
      destruct (Pop_post_member _ _ _ _ _ _ _ _ HP Hc')
        as (_ & _ & qx & qy & _ & _ & _ & _ & Hn').
      replace (length (netcons (engine w)) + (k - length (netcons (engine w))))
        with k in Hn' by lia.
      rewrite Hn' in Hnc. injection Hnc as <-.
      cbn [nc_sec nc_record spike_detector] in *.
      by replace (k - length (netcons (engine w))) with i by lia.
    + intros Hcl t.
      pose proof (member_fires_eq _ _ _ _ _ _ i t (engine w1) HP Hcl Hi eq_refl)
        as Hf.
      unfold member_fires in Hf. cbn [fst snd] in Hf. rewrite Hc in Hf.
      by rewrite Hf.
  - intros Hcl evs Hall.
    assert (spkt pop ≠ spkid pop) as Hne by lia.
    destruct (members_fire _ _ _ _ _ _ HP Hcl Hne evs (engine w1) [] []
                Hall eq_refl Hvt Hvi) as (Ht & Hi & _ & Hv).
    cbv zeta. cbn [app] in Ht, Hi. rewrite Ht, Hi. done.
Qed.

(** C7, as the code has it.  After [Pop(...)] every member has exactly
    one synapse: an [ExpSyn] on the midpoint of its dendrite with
    [tau = 2] and the reversal potential [e = 0] that [create_synapse]
    defaults to, while the passive reversal potential of that dendrite
    is [-65]. *)
Theorem member_synapse_reversal w n xr yr pop w1 :
  Pop_init n xr yr w = Ok (pop, w1) →
  ∀ c, c ∈ cells pop →
    ∃ o syn p de,
      heap w1 !! c = Some o ∧ synlist o = [syn] ∧
      pps (engine w1) !! syn = Some p ∧
      pp_kind p = ExpSyn ∧ pp_seg p = Seg (dend o) 0.5 ∧
      pp_attrs p !! "tau" = Some 2%Q ∧ pp_attrs p !! "e" = Some 0%Q ∧
      secs (engine w1) !! dend o = Some de ∧
      sec_attrs de !! "e_pas" = Some (-65)%Q.
Proof.
  intros E c [i Hc]%list_elem_of_lookup_1. apply Pop_init_on_return in E as HP.
  destruct (Pop_post_member _ _ _ _ _ _ _ _ HP Hc)
    as (Hi & -> & px & py & Hh & _ & Hde & Hp & _).
  eexists _, _, _, _. split; [exact Hh|]. cbn [synlist dend member_cell].
  split; [done|]. split; [exact Hp|]. split_and!; try done.
Qed.

(** C8.  A member of a population has no position before [Pop(...)] and
    one after it; no sequence of later calls, other than [set_position]
    on that very cell, changes it. *)
Theorem position_fixed_at_creation w n xr yr pop w1 :
  Pop_init n xr yr w = Ok (pop, w1) →
  ∀ c, c ∈ cells pop →
    position w c = None ∧
    ∃ p, position w1 c = Some p ∧
      ∀ ks w2, existsb (moves c) ks = false →
        exec_all ks w1 = Ok (tt, w2) → position w2 c = Some p.
Proof.
  intros E c [i Hc]%list_elem_of_lookup_1. apply Pop_init_on_return in E as HP.
  destruct (Pop_post_member _ _ _ _ _ _ _ _ HP Hc)
    as (Hi & -> & px & py & Hb).
  split.
  { unfold position. by rewrite lookup_ge_None_2 by lia. }
  exists (px, py). split; [by eapply built_member_position|].
  intros ks w2 Hm E2.
  rewrite <- (built_member_position _ _ _ _ _ _ _ _ _ _ _ Hb).
  eapply position_frame; [by apply exec_all_frame | done |].
  destruct Hb as (-> & _). by eexists.
Qed.

(** ** The first population of the script *)

Lemma make_popExc_eq w :
  make_popExc w
    = Pop_init 100 [0.0; 1.0]%Q [0.2; 1]%Q (with_rng (λ _, seed 111) w).
Proof. done. Qed.

(** Wherever the script starts from, the members of [popExc] sit at the
    pairs of draws that follow [np.random.seed(111)]. *)
Lemma popExc_drawn w pop w1 :
  make_popExc w = Ok (pop, w1) →
  let xd := uniform (Pop_size.1 * 0.0) (Pop_size.1 * 1.0) 100 (seed 111) in
  let yd := uniform (Pop_size.2 * 0.2) (Pop_size.2 * 1) 100 xd.2 in
  position w1 <$> cells pop = Some <$> zip xd.1 yd.1.
Proof.
  rewrite make_popExc_eq. intros E%Pop_init_on_return.
  apply Pop_post_positions in E
    as (xn0 & xn1 & yn0 & yn1 & Hx0 & Hx1 & Hy0 & Hy1 & HP).
  by simplify_eq/=.
Qed.

(** C2.  Given that every draw of the generator falls in [[0, 1)]:
    the script's [np.random.seed(111)] followed by
    [Pop(100, yNormRange=[0.2, 1])] returns a population of exactly 100
    cells, each placed with [x] in [[0, 100]] and [y] in [[20, 100]]; and
    from whatever world the script is run again, the positions come out
    the same, cell by cell. *)
Theorem popExc_positions :
  unit_interval →
  ∀ w, ∃ pop w1,
    make_popExc w = Ok (pop, w1) ∧
    length (cells pop) = 100 ∧
    (∀ c, c ∈ cells pop →
       ∃ px py, position w1 c = Some (px, py) ∧
         (0 <= px)%Q ∧ (px <= 100)%Q ∧ (20 <= py)%Q ∧ (py <= 100)%Q) ∧
    ∀ w' pop' w1', make_popExc w' = Ok (pop', w1') →
      position w1' <$> cells pop' = position w1 <$> cells pop.
Proof.
  intros Hu w.
  destruct (Pop_init_returns 100 [0.0; 1.0]%Q [0.2; 1]%Q 0.0 1.0 0.2 1
              (with_rng (λ _, seed 111) w) eq_refl eq_refl eq_refl eq_refl)
    as (pop & w1 & E & HP).
  rewrite <- make_popExc_eq in E. exists pop, w1. split; [done|].
  pose proof (popExc_drawn w pop w1 E) as Hd. cbv zeta in Hd.
  set (xd := uniform (Pop_size.1 * 0.0) (Pop_size.1 * 1.0) 100 (seed 111)) in *.
  set (yd := uniform (Pop_size.2 * 0.2) (Pop_size.2 * 1) 100 xd.2) in *.
  split_and!.
  - destruct HP as (?&?&?&?&_&_&_&_&HP). cbv zeta in HP.
    destruct HP as (-> & _). cbn [cells]. by rewrite length_seq.
  - intros c [i Hc]%list_elem_of_lookup_1.
    assert ((position w1 <$> cells pop) !! i = Some (position w1 c)) as Hp
      by (by rewrite list_lookup_fmap, Hc).
    rewrite Hd, list_lookup_fmap in Hp.
    destruct (zip xd.1 yd.1 !! i) as [[px py]|] eqn:Hz; [|done].
    injection Hp as <-. apply lookup_zip_Some in Hz as [Hx Hy].
    exists px, py. split; [done|].
    assert ((Pop_size.1 * 0.0 <= px)%Q ∧ (px <= Pop_size.1 * 1.0)%Q) as [Hx0 Hx1].
    { apply (Forall_lookup_1
               (λ v, (Pop_size.1 * 0.0 <= v)%Q ∧ (v <= Pop_size.1 * 1.0)%Q)
               xd.1 i px); [|exact Hx].
      apply uniform_range; [done|]. by apply Qle_bool_imp_le. }
    assert ((Pop_size.2 * 0.2 <= py)%Q ∧ (py <= Pop_size.2 * 1)%Q) as [Hy0 Hy1].
    { apply (Forall_lookup_1
               (λ v, (Pop_size.2 * 0.2 <= v)%Q ∧ (v <= Pop_size.2 * 1)%Q)
               yd.1 i py); [|exact Hy].
      apply uniform_range; [done|]. by apply Qle_bool_imp_le. }
    split_and!.
    + eapply Qle_trans; [|exact Hx0]. by apply Qle_bool_imp_le.
    + eapply Qle_trans; [exact Hx1|]. by apply Qle_bool_imp_le.
    + eapply Qle_trans; [|exact Hy0]. by apply Qle_bool_imp_le.
    + eapply Qle_trans; [exact Hy1|]. by apply Qle_bool_imp_le.
  - intros w' pop' w1' E'.
    pose proof (popExc_drawn w' pop' w1' E') as Hd'. cbv zeta in Hd'.
    by rewrite Hd, Hd'.
Qed.

(** ** Plotting *)

Lemma plt_new_figure_eq figsize w :
  plt_new_figure figsize w
    = Ok (length (filter is_figure (plt w ++ [plt_figure figsize])),
          with_plt (λ l, l ++ [plt_figure figsize]) w).
Proof. done. Qed.

Lemma plot_voltage_unrecorded w c o title ylim show :
  heap w !! c = Some o →
  t_vec o = None ∨ soma_v_vec o = None ∨ dend_v_vec o = None →
  plot_voltage c title ylim show w = Raise AttributeError.
Proof.
  intros Ho Hnone. unfold plot_voltage.
  rewrite (bind_Ok _ _ _ _ _ (plt_new_figure_eq _ w)).
  rewrite (bind_Ok _ _ _ _ _
             (deref_Some c o (with_plt (λ l, l ++ [plt_figure _]) w) Ho)).
  destruct (t_vec o) as [tv|]; [|done].
  rewrite (bind_Ok _ _ (with_plt _ w) tv _ eq_refl).
  destruct (soma_v_vec o) as [sv|]; [|done].
  rewrite (bind_Ok _ _ (with_plt _ w) sv _ eq_refl).
  rewrite (bind_Ok (plt_plot_vectors tv sv _ _) _ _ tt _ eq_refl).
  rewrite (bind_Ok (getattr (Some tv)) _ _ tv _ eq_refl).
  by destruct Hnone as [? | [? | ->]].
Qed.

(** C9, as the code has it.  On a cell whose recording vectors are bound
    ([set_recording] has run), [plot_voltage] returns the handle of the
    figure it opens, and neither the cell nor anything in the engine
    changes; on a cell that lacks one of them it raises [AttributeError]
    and returns no handle. *)
Theorem plot_voltage_frame w c o title ylim show :
  heap w !! c = Some o →
  (∀ tv sv dv,
     t_vec o = Some tv → soma_v_vec o = Some sv → dend_v_vec o = Some dv →
     ∃ w', plot_voltage c title ylim show w
             = Ok (length (filter is_figure (plt w)) + 1, w') ∧
           plt w ++ [plt_figure (Some (8, 4)%Q)] `prefix_of` plt w' ∧
           model_state w' c = model_state w c ∧ heap w' = heap w) ∧
  (t_vec o = None ∨ soma_v_vec o = None ∨ dend_v_vec o = None →
   plot_voltage c title ylim show w = Raise AttributeError).
Proof.
  intros Ho. split; [|by apply plot_voltage_unrecorded].
  intros tv sv dv Ht Hs Hd.
  eexists. split; [|split].
  - rewrite (plot_voltage_eq _ _ _ _ _ _ _ _ _ Ho Ht Hs Hd).
    by rewrite filter_app, length_app.
  - norm. apply prefix_app, prefix_cons, prefix_nil.
  - by norm.
Qed.

(** * Further properties *)

(** ** Failing computations *)

Lemma raises_bind {A B} (m : M A) (f : A → M B) w e :
  returns m w (λ a w1, f a w1 = Raise e) → (m ≫= f) w = Raise e.
Proof. intros (a & w1 & E & Hf). by rewrite (bind_Ok _ _ _ _ _ E). Qed.

(** ** Geometry *)

Lemma HHCell_init_4a_eq w :
  HHCell_init_4a w = Ok (length (heap w),
    let so := length (secs (engine w)) in
    with_heap (λ l, l ++ [new_cell so])
      (with_engine (with_topology (λ l, l ++ [mkConnect (so + 1) 0 (Seg so 1)]))
        (with_engine (with_secs (λ l, l ++ [soma_section; dend_section_4a])) w))).
Proof.
  apply returns_run.
  unfold HHCell_init_4a, create_sections, build_topology, define_geometry_4a,
    define_biophysics. unfold_prims.
  repeat step. split; [done|]. world_ext.
Qed.

Lemma dend_section_4a_attrs :
  sec_attrs dend_section_4a = <["nseg" := 10%Q]> (sec_attrs dend_section).
Proof.
  apply map_eq. intros k. unfold dend_section_4a, dend_section.
  cbn [sec_attrs]. rewrite !lookup_insert. repeat case_decide; congruence.
Qed.

(** X1.  [HHCell()] names its sections "soma" and "dend", gives the soma
    a length and a diameter of 12.6157 and no segment count of its own,
    and the dendrite length 200, diameter 1 and 9 segments; the
    constructor of tutorial_4a.py builds the same cell from the same
    world except that its dendrite has 10 segments. *)
Theorem geometry_after_construction w :
  ∃ c w1 w1' o so de de',
    HHCell_init w = Ok (c, w1) ∧ HHCell_init_4a w = Ok (c, w1') ∧
    heap w1 !! c = Some o ∧ heap w1' !! c = Some o ∧
    secs (engine w1) !! soma o = Some so ∧
    secs (engine w1) !! dend o = Some de ∧
    secs (engine w1') !! soma o = Some so ∧
    secs (engine w1') !! dend o = Some de' ∧
    sec_name so = "soma" ∧ sec_name de = "dend" ∧ sec_name de' = "dend" ∧
    sec_attrs so !! "L" = Some 12.6157%Q ∧
    sec_attrs so !! "diam" = Some 12.6157%Q ∧
    sec_attrs so !! "nseg" = None ∧
    sec_attrs de !! "L" = Some 200%Q ∧
    sec_attrs de !! "diam" = Some 1%Q ∧
    sec_attrs de !! "nseg" = Some 9%Q ∧
    sec_attrs de' = <["nseg" := 10%Q]> (sec_attrs de) ∧
    sec_mechs de' = sec_mechs de.
Proof.
  destruct (HHCell_init_built w) as (Hc & Hso & Hde & _ & _).
  eexists (length (heap w)), (HHCell_world w), _,
    (new_cell (length (secs (engine w)))), soma_section, dend_section,
    dend_section_4a.
  split; [apply HHCell_init_eq|]. split; [apply HHCell_init_4a_eq|].
  split; [done|]. split; [by norm|]. split; [done|]. split; [done|].
  cbn [soma dend new_cell].
  split; [by norm|]. split; [by norm|].
  do 9 (split; [done|]). split; [apply dend_section_4a_attrs | done].
Qed.

(** ** Synapses and connections *)




(** X3.  On a cell that has no synapse, as every cell is right after
    construction, [connect2pre] raises [IndexError] whatever index, delay
    and weight it is given, in both versions of the method. *)
Theorem connect2pre_without_synapse w c p o pre synid delay weight :
  heap w !! c = Some o → heap w !! p = Some pre → synlist o = [] →
  connect2pre c p synid delay weight w = Raise IndexError ∧
  connect2pre_4a c p synid delay weight w = Raise IndexError.
Proof.
  intros Ho Hp Hs.
  assert (py_index (synlist o) synid w = Raise IndexError) as Hi
    by (apply py_index_out_of_range; rewrite Hs; simpl; lia).
  split; [by eapply connect2pre_Raise | by eapply connect2pre_4a_Raise].
Qed.

(** ** Positions *)

(** X4.  [set_position(x, y)] on an existing cell makes [(x, y)] its
    position, whatever it was before, and changes nothing else: not the
    engine, not another cell, not the other attributes of this cell. *)
Theorem set_position_reads_back w c o px py :
  heap w !! c = Some o →
  ∃ w' o',
    set_position c px py w = Ok (tt, w') ∧
    position w' c = Some (px, py) ∧
    engine w' = engine w ∧ plt w' = plt w ∧ rng w' = rng w ∧
    (∀ c', c' ≠ c → heap w' !! c' = heap w !! c') ∧
    heap w' !! c = Some o' ∧
    synlist o' = synlist o ∧ nclist o' = nclist o ∧
    soma o' = soma o ∧ dend o' = dend o ∧ stim o' = stim o ∧
    recorders o' = recorders o.
Proof.
  intros Ho. exists (with_heap (alter (set_xy px py) c) w), (set_xy px py o).
  split; [done|]. split.
  { unfold position. norm. by rewrite list_lookup_alter_eq, Ho. }
  do 3 (split; [done|]). split.
  { intros c' Hne. norm. by rewrite list_lookup_alter_ne. }
  split; [norm; by rewrite list_lookup_alter_eq, Ho|]. by destruct o.
Qed.

(** ** Recording and plotting *)

Lemma recorders_Some o sv dv tv :
  recorders o = Some (sv, dv, tv) →
  soma_v_vec o = Some sv ∧ dend_v_vec o = Some dv ∧ t_vec o = Some tv.
Proof.
  unfold recorders.
  destruct (soma_v_vec o), (dend_v_vec o), (t_vec o); simpl; try done.
  by intros [= -> -> ->].
Qed.

(** The commands of [plot_voltage], in terms of [voltage_plot]. *)
Lemma plot_voltage_plt w c o sv dv tv title ylim show :
  heap w !! c = Some o → recorders o = Some (sv, dv, tv) →
  ∃ w',
    plot_voltage c title ylim show w
      = Ok (length (filter is_figure (plt w)) + 1, w') ∧
    engine w' = engine w ∧ heap w' = heap w ∧ rng w' = rng w ∧
    stdout w' = stdout w ∧
    let read v := default [] (vec_data <$> vectors (engine w) !! v) in
    plt w' = plt w ++ voltage_plot (read tv) (read sv) (read dv) title ylim show.
Proof.
  intros Ho (Hs & Hd & Ht)%recorders_Some. eexists. split.
  - rewrite (plot_voltage_eq _ _ _ _ _ _ _ _ _ Ho Ht Hs Hd).
    by rewrite filter_app, length_app.
  - by norm.
Qed.

Lemma pyplot_app closes l l' :
  pyplot closes (l ++ l')
    = foldl (pyplot_step closes) (pyplot closes l) l'.
Proof. apply foldl_app. Qed.

(** One call of [plot_voltage] opens exactly one figure, whether or not
    one was open. *)
Lemma voltage_plot_opens closes l ts vs ds title ylim show :
  figures_opened closes (l ++ voltage_plot ts vs ds title ylim show)
    = figures_opened closes l + 1.
Proof.
  unfold figures_opened. rewrite pyplot_app.
  destruct (pyplot closes l) as [k cur]. unfold voltage_plot.
  destruct show, closes; cbn [app foldl pyplot_step fst snd]; lia.
Qed.

(** X5.  [set_recording] binds three new vectors to the cell, recording
    the voltage at the middle of the soma, the voltage at the middle of
    the dendrite, and time; [plot_voltage] called after it, before any
    run, does not raise: it returns a handle, opens exactly one figure
    and draws two empty traces on it. *)
Theorem set_recording_then_plot w c o title ylim show :
  heap w !! c = Some o →
  let v := length (vectors (engine w)) in
  ∃ w1 o1 fig w2,
    set_recording c w = Ok (tt, w1) ∧
    heap w1 !! c = Some o1 ∧ recorders o1 = Some (v, v + 1, v + 2) ∧
    vectors (engine w1)
      = vectors (engine w)
        ++ [mkVector [] (Some (ref_v (Seg (soma o) 0.5)));
            mkVector [] (Some (ref_v (Seg (dend o) 0.5)));
            mkVector [] (Some ref_t)] ∧
    plot_voltage c title ylim show w1 = Ok (fig, w2) ∧
    plt w2 = plt w ++ voltage_plot [] [] [] title ylim show ∧
    ∀ closes,
      figures_opened closes (plt w2) = figures_opened closes (plt w) + 1.
Proof.
  intros Ho v.
  pose proof (set_recording_eq w c o Ho) as E. cbv zeta in E. fold v in E.
  set (w1 := with_engine _ _) in E.
  set (o1 := (set_t_vec (v + 2) ∘ set_dend_v_vec (v + 1) ∘ set_soma_v_vec v) o).
  assert (heap w1 !! c = Some o1) as Ho1.
  { unfold w1. norm. by rewrite list_lookup_alter_eq, Ho. }
  assert (recorders o1 = Some (v, v + 1, v + 2)) as Hr by done.
  destruct (plot_voltage_plt w1 c o1 _ _ _ title ylim show Ho1 Hr)
    as (w2 & E2 & _ & _ & _ & _ & Hplt).
  assert (plt w2 = plt w ++ voltage_plot [] [] [] title ylim show) as Hplt2.
  { rewrite Hplt. unfold w1, v. by norm. }
  eexists w1, o1, _, w2. split; [exact E|]. split; [exact Ho1|].
  split; [exact Hr|]. split; [unfold w1; by norm|]. split; [exact E2|].
  split; [exact Hplt2|].
  intros closes. rewrite Hplt2. apply voltage_plot_opens.
Qed.

(** X6.  After [h.run()], [plot_voltage] on a cell whose three recording
    vectors exist draws what the run left in them: the soma trace in
    black and the dendrite trace in red, both against the recorded
    time. *)
Theorem plot_voltage_after_run w c o sv dv tv title ylim show :
  heap w !! c = Some o → recorders o = Some (sv, dv, tv) →
  sv < length (vectors (engine w)) →
  dv < length (vectors (engine w)) →
  tv < length (vectors (engine w)) →
  ∃ w1 w2 fig,
    h_run w = Ok (tt, w1) ∧
    plot_voltage c title ylim show w1 = Ok (fig, w2) ∧
    plt w2 = plt w ++ voltage_plot (simulate (engine w) tv)
                        (simulate (engine w) sv) (simulate (engine w) dv)
                        title ylim show.
Proof.
  intros Ho Hr Hsv Hdv Htv.
  set (w1 := with_engine (λ e, with_vectors (imap
    (λ i o, mkVector (simulate e i) (vec_record o))) e) w).
  destruct (plot_voltage_plt w1 c o _ _ _ title ylim show Ho Hr)
    as (w2 & E2 & _ & _ & _ & _ & Hplt).
  eexists w1, w2, _. split; [done|]. split; [exact E2|].
  rewrite Hplt. cbv zeta. unfold w1. norm.
  assert (∀ v, v < length (vectors (engine w)) →
            default [] (vec_data <$> imap (λ i o, mkVector
              (simulate (engine w) i) (vec_record o)) (vectors (engine w)) !! v)
            = simulate (engine w) v) as Hread.
  { intros v Hv. rewrite list_lookup_imap.
    destruct (lookup_lt_is_Some_2 _ _ Hv) as [vec ->]. done. }
  by rewrite !Hread.
Qed.

(** ** Plotting a population *)

Lemma position_Some w c px py :
  position w c = Some (px, py) ↔
  ∃ o, heap w !! c = Some o ∧ x o = Some px ∧ y o = Some py.
Proof.
  unfold position. split.
  - destruct (heap w !! c) as [o|]; [|done]. simpl.
    destruct (x o) as [qx|] eqn:Hx; [|done]. simpl.
    destruct (y o) as [qy|] eqn:Hy; [|done]. simpl.
    intros [= -> ->]. by exists o.
  - intros (o & -> & Hx & Hy). simpl. by rewrite Hx, Hy.
Qed.

Lemma read_attr_cons (r : HHCell → option Q) c l o v vs w :
  heap w !! c = Some o → r o = Some v →
  mapM (λ c, o ← deref c; getattr (r o)) l w = Ok (vs, w) →
  mapM (λ c, o ← deref c; getattr (r o)) (c :: l) w = Ok (v :: vs, w).
Proof.
  intros Ho Hv Hl. cbn [mapM].
  assert ((deref c ≫= λ o, getattr (r o)) w = Ok (v, w)) as E.
  { rewrite (bind_Ok _ _ _ _ _ (deref_Some _ _ _ Ho)). by rewrite Hv. }
  rewrite (bind_Ok _ _ _ _ _ E). by rewrite (bind_Ok _ _ _ _ _ Hl).
Qed.

Lemma read_positions l : ∀ ps w,
  position w <$> l = Some <$> ps →
  mapM (λ c, o ← deref c; getattr (x o)) l w = Ok (ps.*1, w) ∧
  mapM (λ c, o ← deref c; getattr (y o)) l w = Ok (ps.*2, w).
Proof.
  induction l as [|c l IH]; intros [|[px py] ps] w Hp; try done.
  injection Hp as Hc Hl. apply position_Some in Hc as (o & Ho & Hx & Hy).
  destruct (IH ps w Hl) as [Ex Ey].
  split; by eapply read_attr_cons.
Qed.

(** Reading one attribute off every cell of a list either returns all of
    them or raises [AttributeError]. *)
Lemma read_attr_total (r : HHCell → option Q) l w :
  (∀ c, c ∈ l → is_Some (heap w !! c)) →
  (∃ vs, mapM (λ c, o ← deref c; getattr (r o)) l w = Ok (vs, w) ∧
         ∀ c o, c ∈ l → heap w !! c = Some o → is_Some (r o)) ∨
  mapM (λ c, o ← deref c; getattr (r o)) l w = Raise AttributeError.
Proof.
  induction l as [|c l IH]; intros Hall.
  - left. exists []. split; [done|]. by intros c o ?%elem_of_nil.
  - destruct (Hall c) as [o Ho]; [by left|].
    destruct (r o) as [v|] eqn:Hv.
    + destruct IH as [(vs & E & Hvs)|E]; [intros; apply Hall; by right| |].
      * left. exists (v :: vs). split; [by eapply read_attr_cons|].
        intros c' o' [->|Hin]%elem_of_cons Ho'; [|by eapply Hvs].
        rewrite Ho in Ho'. injection Ho' as <-. by rewrite Hv.
      * right. cbn [mapM].
        assert ((deref c ≫= λ o, getattr (r o)) w = Ok (v, w)) as E1.
        { rewrite (bind_Ok _ _ _ _ _ (deref_Some _ _ _ Ho)). by rewrite Hv. }
        rewrite (bind_Ok _ _ _ _ _ E1). by rewrite (bind_Raise _ _ _ _ E).
    + right. cbn [mapM].
      assert ((deref c ≫= λ o, getattr (r o)) w = Raise AttributeError) as E1.
      { rewrite (bind_Ok _ _ _ _ _ (deref_Some _ _ _ Ho)). by rewrite Hv. }
      by rewrite (bind_Raise _ _ _ _ E1).
Qed.

Lemma plot_net_eq w pop show ps :
  position w <$> cells pop = Some <$> ps →
  plot_net pop show w = Ok (tt,
    with_plt (λ l, l ++
      [plt_xlim (Some (0, 100)%Q); plt_ylim (Some (0, 100)%Q);
       plt_scatter ps.*1 ps.*2 40 None None]
      ++ (if show then [plt_show] else [])) w).
Proof.
  intros Hp. apply returns_run. unfold plot_net. unfold_prims.
  do 4 step. apply returns_bind.
  eapply returns_eq; [by apply (read_positions _ ps)|].
  apply returns_bind.
  eapply returns_eq; [by apply (read_positions _ ps)|].
  repeat step; (split; [done|]); world_ext.
Qed.

(** X7.  [plot_net] on a population whose members all have a position
    sets both axes to the canvas [0, 100] and draws one scatter of the
    members' positions in creation order, with marker size 40, and
    changes nothing outside matplotlib; if the members exist but one of
    them has no position, it raises [AttributeError]. *)
Theorem plot_net_scatter w pop show :
  (∀ ps, position w <$> cells pop = Some <$> ps →
     ∃ w', plot_net pop show w = Ok (tt, w') ∧
       plt w' = plt w ++
         [plt_xlim (Some (0, 100)%Q); plt_ylim (Some (0, 100)%Q);
          plt_scatter ps.*1 ps.*2 40 None None]
         ++ (if show then [plt_show] else []) ∧
       engine w' = engine w ∧ heap w' = heap w ∧ rng w' = rng w) ∧
  ((∀ c, c ∈ cells pop → is_Some (heap w !! c)) →
   (∃ c, c ∈ cells pop ∧ position w c = None) →
   plot_net pop show w = Raise AttributeError).
Proof.
  split.
  - intros ps Hp. eexists. split; [by apply plot_net_eq|]. by norm.
  - intros Hall (c & Hin & Hnone). unfold plot_net.
    apply raises_bind. unfold_prims. step. apply raises_bind. step.
    set (w1 := with_plt _ _).
    assert (∀ c, c ∈ cells pop → is_Some (heap w1 !! c)) as Hall1 by done.
    destruct (read_attr_total x (cells pop) w1 Hall1) as [(xs & Ex & Hxs)|Ex];
      [|by rewrite (bind_Raise _ _ _ _ Ex)].
    rewrite (bind_Ok _ _ _ _ _ Ex).
    destruct (read_attr_total y (cells pop) w1 Hall1) as [(ys & Ey & Hys)|Ey];
      [|by rewrite (bind_Raise _ _ _ _ Ey)].
    exfalso. destruct (Hall c Hin) as [o Ho].
    destruct (Hxs c o Hin Ho) as [px Hx]. destruct (Hys c o Hin Ho) as [py Hy].
    assert (position w c = Some (px, py)) as Hsome
      by (apply position_Some; by exists o).
    by rewrite Hnone in Hsome.
Qed.

(** ** Building a population: errors and edge cases *)

Lemma py_index_None {A} (l : list A) (i : nat) w :
  l !! i = None → py_index l (Z.of_nat i) w = Raise IndexError.
Proof.
  intros Hn%lookup_ge_None. apply py_index_out_of_range. lia.
Qed.

(** X8.  [Pop(numCells, xNormRange, yNormRange)] returns whenever both
    ranges have at least two entries (further entries are ignored), and
    raises [IndexError] when either has fewer. *)
Theorem Pop_init_needs_two_bounds n xr yr w :
  (2 ≤ length xr → 2 ≤ length yr →
     ∃ pop w1, Pop_init n xr yr w = Ok (pop, w1)) ∧
  (length xr < 2 ∨ length yr < 2 → Pop_init n xr yr w = Raise IndexError).
Proof.
  split.
  - intros Hx Hy.
    destruct (lookup_lt_is_Some_2 xr 0) as [x0 Hx0]; [lia|].
    destruct (lookup_lt_is_Some_2 xr 1) as [x1 Hx1]; [lia|].
    destruct (lookup_lt_is_Some_2 yr 0) as [y0 Hy0]; [lia|].
    destruct (lookup_lt_is_Some_2 yr 1) as [y1 Hy1]; [lia|].
    destruct (Pop_init_returns n xr yr _ _ _ _ w Hx0 Hx1 Hy0 Hy1)
      as (pop & w1 & E & _).
    by exists pop, w1.
  - intros Hshort. unfold Pop_init, create_cells. unfold_prims.
    apply raises_bind. step. apply raises_bind. step.
    destruct (xr !! 0) as [x0|] eqn:Hx0;
      [|by apply bind_Raise, (py_index_None xr 0)].
    apply raises_bind. step_pop.
    destruct (xr !! 1) as [x1|] eqn:Hx1;
      [|by apply bind_Raise, (py_index_None xr 1)].
    apply raises_bind. step_pop. apply raises_bind. step_pop.
    assert (length yr < 2) as Hy.
    { destruct Hshort as [Hx|Hy]; [|done].
      apply lookup_lt_Some in Hx1. lia. }
    destruct (yr !! 0) as [y0|] eqn:Hy0;
      [|by apply bind_Raise, (py_index_None yr 0)].
    apply raises_bind. step_pop.
    apply bind_Raise, (py_index_None yr 1), lookup_ge_None. lia.
Qed.

(** X9.  [Pop(0, ...)] returns a population without members: it
    allocates the two spike vectors and nothing else, leaves the
    generator where it was, and [plot_net] on it draws an empty
    scatter. *)
Theorem Pop_init_zero xr yr w :
  2 ≤ length xr → 2 ≤ length yr →
  let v := length (vectors (engine w)) in
  let w1 := with_engine (with_vectors
              (λ l, l ++ [mkVector [] None; mkVector [] None])) w in
  Pop_init 0 xr yr w = Ok (mkPop v (v + 1) [], w1) ∧
  ∀ show, ∃ w2,
    plot_net (mkPop v (v + 1) []) show w1 = Ok (tt, w2) ∧
    plt w2 = plt w ++
      [plt_xlim (Some (0, 100)%Q); plt_ylim (Some (0, 100)%Q);
       plt_scatter [] [] 40 None None]
      ++ (if show then [plt_show] else []).
Proof.
  intros Hx Hy v w1.
  destruct (lookup_lt_is_Some_2 xr 0) as [x0 Hx0]; [lia|].
  destruct (lookup_lt_is_Some_2 xr 1) as [x1 Hx1]; [lia|].
  destruct (lookup_lt_is_Some_2 yr 0) as [y0 Hy0]; [lia|].
  destruct (lookup_lt_is_Some_2 yr 1) as [y1 Hy1]; [lia|].
  split.
  - apply returns_run. unfold Pop_init, create_cells. unfold_prims.
    repeat step_pop. cbn [seq for_each]. step.
    split; [unfold v; by rewrite Nat.add_1_r|]. unfold w1. world_ext.
  - intros show. eexists. split; [by apply (plot_net_eq _ _ _ [])|].
    unfold w1. by norm.
Qed.

(** ** Building a population: the draws *)

Lemma uniform_state lo hi n : ∀ s, (uniform lo hi n s).2 = advance n s.
Proof.
  induction n as [|n IH]; intros s; simpl; [done|].
  specialize (IH (random_sample s).2).
  destruct (random_sample s) as [u s1]. simpl in *.
  by destruct (uniform lo hi n s1).
Qed.

Lemma uniform_lookup lo hi n : ∀ s i,
  i < n →
  (uniform lo hi n s).1 !! i = Some (lo + (hi - lo) * draw i s)%Q.
Proof.
  induction n as [|n IH]; intros s i Hi; [lia|]. simpl.
  destruct i as [|i].
  - unfold draw. simpl. destruct (random_sample s) as [u s1].
    by destruct (uniform lo hi n s1).
  - specialize (IH (random_sample s).2 i ltac:(lia)).
    unfold draw in *. simpl advance.
    destruct (random_sample s) as [u s1]. simpl in *.
    by destruct (uniform lo hi n s1).
Qed.

Lemma advance_add n m s : advance (n + m) s = advance m (advance n s).
Proof. revert s. induction n as [|n IH]; intros s; simpl; [done | apply IH]. Qed.

Lemma draw_add n k s : draw (n + k) s = draw k (advance n s).
Proof. unfold draw. by rewrite advance_add. Qed.

(** The position of the [i]-th member, in terms of the draws. *)
Lemma Pop_member_drawn n xr yr w pop w1 x0 x1 y0 y1 i c :
  Pop_init n xr yr w = Ok (pop, w1) →
  xr !! 0 = Some x0 → xr !! 1 = Some x1 →
  yr !! 0 = Some y0 → yr !! 1 = Some y1 →
  cells pop !! i = Some c →
  position w1 c
    = Some ((100 * x0 + (100 * x1 - 100 * x0) * draw i (rng w))%Q,
            (100 * y0 + (100 * y1 - 100 * y0) * draw (n + i) (rng w))%Q).
Proof.
  intros E%Pop_init_on_return Hx0 Hx1 Hy0 Hy1 Hc.
  destruct E as (a0 & a1 & b0 & b1 & Ha0 & Ha1 & Hb0 & Hb1 & HP).
  cbv zeta in HP. destruct HP as (Hpop & _ & _ & _ & _ & Mem).
  simplify_eq. cbn [cells] in Hc. apply lookup_seq in Hc as [-> Hi].
  destruct (Mem i Hi) as (px & py & Hpx & Hpy & Hb).
  rewrite (built_member_position _ _ _ _ _ _ _ _ _ _ _ Hb).
  rewrite uniform_lookup in Hpx by done.
  rewrite uniform_lookup, uniform_state, <- draw_add in Hpy by done.
  by simplify_eq.
Qed.

(** X10.  [Pop(numCells, ...)] takes exactly [2 * numCells] values from
    the generator: the first [numCells] become the [x] coordinates of the
    cells in creation order, the next [numCells] their [y] coordinates,
    each scaled from the unit interval into the requested part of the
    100 by 100 canvas. *)
Theorem Pop_init_draws n xr yr w pop w1 :
  Pop_init n xr yr w = Ok (pop, w1) →
  rng w1 = advance (2 * n) (rng w) ∧
  ∃ x0 x1 y0 y1,
    xr !! 0 = Some x0 ∧ xr !! 1 = Some x1 ∧
    yr !! 0 = Some y0 ∧ yr !! 1 = Some y1 ∧
    ∀ i c, cells pop !! i = Some c →
      position w1 c
        = Some ((100 * x0 + (100 * x1 - 100 * x0) * draw i (rng w))%Q,
                (100 * y0 + (100 * y1 - 100 * y0) * draw (n + i) (rng w))%Q).
Proof.
  intros E.
  pose proof (Pop_init_on_return _ _ _ _ _ _ E)
    as (x0 & x1 & y0 & y1 & Hx0 & Hx1 & Hy0 & Hy1 & HP).
  cbv zeta in HP. destruct HP as (_ & Hrng & _).
  split.
  { rewrite Hrng, !uniform_state, <- advance_add. f_equal. lia. }
  exists x0, x1, y0, y1. do 4 (split; [done|]).
  intros i c Hc. by eapply Pop_member_drawn.
Qed.

(** ** Building a population: what is shared and what is not *)

(** X12.  The members of a population are as many as asked for, all new
    and all different, and no two of them share a section, a synapse or
    a recording vector; none of their sections existed before. *)
Theorem Pop_members_apart n xr yr w pop w1 :
  Pop_init n xr yr w = Ok (pop, w1) →
  length (cells pop) = n ∧ NoDup (cells pop) ∧
  (∀ c, c ∈ cells pop → heap w !! c = None) ∧
  ∀ i j ci cj, cells pop !! i = Some ci → cells pop !! j = Some cj →
    ∃ oi oj si sv dv tv sj sv' dv' tv',
      heap w1 !! ci = Some oi ∧ heap w1 !! cj = Some oj ∧
      length (secs (engine w)) ≤ soma oi ∧ dend oi = soma oi + 1 ∧
      synlist oi = [si] ∧ synlist oj = [sj] ∧
      recorders oi = Some (sv, dv, tv) ∧
      recorders oj = Some (sv', dv', tv') ∧
      (i ≠ j →
         soma oi ≠ soma oj ∧ soma oi ≠ dend oj ∧ dend oi ≠ dend oj ∧
         si ≠ sj ∧
         sv ≠ sv' ∧ sv ≠ dv' ∧ sv ≠ tv' ∧ dv ≠ dv' ∧ dv ≠ tv' ∧ tv ≠ tv').
Proof.
  intros E%Pop_init_on_return. split_and!.
  - destruct E as (?&?&?&?&_&_&_&_&HP). cbv zeta in HP.
    destruct HP as (-> & _). cbn [cells]. by rewrite length_seq.
  - destruct E as (?&?&?&?&_&_&_&_&HP). cbv zeta in HP.
    destruct HP as (-> & _). apply NoDup_seq.
  - intros c [i Hc]%list_elem_of_lookup_1.
    destruct (Pop_post_member _ _ _ _ _ _ _ _ E Hc) as (_ & -> & _).
    apply lookup_ge_None. lia.
  - intros i j ci cj Hi Hj.
    destruct (Pop_post_member _ _ _ _ _ _ _ _ E Hi)
      as (_ & _ & px & py & Hoi & _).
    destruct (Pop_post_member _ _ _ _ _ _ _ _ E Hj)
      as (_ & _ & qx & qy & Hoj & _).
    eexists _, _, _, _, _, _, _, _, _, _.
    split; [exact Hoi|]. split; [exact Hoj|].
    cbn [soma dend synlist member_cell]. split; [lia|].
    do 3 (split; [done|]). split; [done|]. split; [done|].
    intros Hne. split_and!; lia.
Qed.

(** One iteration of the loop prints its line and touches neither
    matplotlib nor [h.tstop]. *)
Lemma create_cells_body_log xs ys i self w :
  on_return (create_cells_body xs ys i self) w (λ _ w',
    plt w' = plt w ∧
    stdout w' = stdout w ++ created_lines [i] ∧
    tstop (engine w') = tstop (engine w)).
Proof.
  unfold create_cells_body. apply on_return_bind.
  eapply on_return_eq; [apply HHCell_init_eq|]. unfold HHCell_world.
  unfold set_recording, create_synapse, set_position. unfold_prims.
  repeat step. by norm.
Qed.

Lemma create_cells_loop_log xs ys k : ∀ i0 self w,
  on_return (for_each (seq i0 k) (create_cells_body xs ys) self) w (λ _ w',
    plt w' = plt w ∧
    stdout w' = stdout w ++ created_lines (seq i0 k) ∧
    tstop (engine w') = tstop (engine w)).
Proof.
  induction k as [|k IH]; intros i0 self w.
  - apply on_return_ret. by rewrite app_nil_r.
  - cbn [seq for_each]. apply on_return_bind.
    eapply on_return_weaken; [apply create_cells_body_log|].
    intros s1 w1 (Hp & Ho & Ht).
    eapply on_return_weaken; [apply IH|].
    intros s2 w2 (Hp2 & Ho2 & Ht2).
    rewrite Hp2, Ho2, Ht2, Hp, Ho, Ht, <- app_assoc. done.
Qed.

Lemma Pop_init_log n xr yr w :
  on_return (Pop_init n xr yr) w (λ _ w1,
    plt w1 = plt w ∧ tstop (engine w1) = tstop (engine w) ∧
    stdout w1 = stdout w ++ created_lines (seq 0 n)).
Proof.
  unfold Pop_init, create_cells. unfold_prims. repeat step_pop.
  eapply on_return_weaken; [apply create_cells_loop_log|].
  intros s w1 (Hp & Ho & Ht). revert Hp Ho Ht. norm. by intros -> -> ->.
Qed.

(** X13.  [Pop(numCells, ...)] only adds to the world: every section,
    [connect] call, point process, connection, vector and cell that
    existed is still there unchanged, nothing is plotted, [h.tstop]
    keeps its value, and one line per cell, "Created cell i", is printed
    in creation order. *)
Theorem Pop_init_adds_only n xr yr w pop w1 :
  Pop_init n xr yr w = Ok (pop, w1) →
  extends w w1 ∧
  plt w1 = plt w ∧
  tstop (engine w1) = tstop (engine w) ∧
  stdout w1 = stdout w ++ created_lines (seq 0 n).
Proof.
  intros E. split.
  { apply Pop_init_on_return in E as (?&?&?&?&_&_&_&_&HP).
    cbv zeta in HP. by destruct HP as (_ & _ & Hext & _). }
  by apply (Pop_init_log n xr yr w pop w1).
Qed.

(** ** A population is silent and unwired *)

(** X14.  [Pop(numCells, ...)] wires nothing: it makes exactly
    [numCells] connections, none of which has a target, a delay or a
    weight (each only logs the spikes of one soma), and no member holds a
    stimulus or a connection of its own. *)
Theorem Pop_init_wires_nothing n xr yr w pop w1 :
  Pop_init n xr yr w = Ok (pop, w1) →
  (∃ ncs, netcons (engine w1) = netcons (engine w) ++ ncs ∧ length ncs = n ∧
     ∀ k, k ∈ ncs →
       nc_target k = None ∧ nc_delay k = None ∧ nc_weight0 k = None ∧
       ∃ id, nc_record k = Some (spkt pop, spkid pop, id)) ∧
  ∀ c, c ∈ cells pop →
    ∃ o, heap w1 !! c = Some o ∧ stim o = None ∧ nclist o = [].
Proof.
  intros E%Pop_init_on_return. split.
  - eexists. split; [by eapply Pop_post_netcons|].
    split; [by rewrite length_fmap, length_seq|].
    intros k (i & -> & _)%list_elem_of_fmap. split_and!; [done..|by exists i].
  - intros c [i Hc]%list_elem_of_lookup_1.
    destruct (Pop_post_member _ _ _ _ _ _ _ _ E Hc)
      as (_ & _ & px & py & Ho & _).
    eexists. split; [exact Ho|]. done.
Qed.

(** ** The raster of a population *)

Lemma plot_raster_eq w pop color show :
  plot_raster pop color show w = Ok (tt,
    let read v := default [] (vec_data <$> vectors (engine w) !! v) in
    with_plt (λ l, l ++
      [plt_figure None;
       plt_scatter (read (spkt pop)) (read (spkid pop)) 100 (Some "|")
                   (Some color);
       plt_xlabel "time (ms)"; plt_ylabel "cell id";
       plt_title "Network raster"]
      ++ (if show then [plt_show] else [])) w).
Proof.
  apply returns_run. unfold plot_raster. unfold_prims.
  repeat step; (split; [done|]); world_ext.
Qed.

(** X15.  [plot_raster] opens a new figure and draws one scatter of spike
    times against cell ids, with marker "|" of size 100 in the given
    colour.  On a population that has just been built the scatter is
    empty; after [h.run()] it shows what the run left in the population's
    two spike vectors. *)
Theorem plot_raster_of_population n xr yr w pop w1 color show :
  Pop_init n xr yr w = Ok (pop, w1) →
  (∃ w2, plot_raster pop color show w1 = Ok (tt, w2) ∧
     plt w2 = plt w ++
       [plt_figure None;
        plt_scatter [] [] 100 (Some "|") (Some color);
        plt_xlabel "time (ms)"; plt_ylabel "cell id";
        plt_title "Network raster"]
       ++ (if show then [plt_show] else []) ∧
     engine w2 = engine w1 ∧ heap w2 = heap w1) ∧
  (∃ w2 w3, h_run w1 = Ok (tt, w2) ∧
     plot_raster pop color show w2 = Ok (tt, w3) ∧
     plt w3 = plt w ++
       [plt_figure None;
        plt_scatter (simulate (engine w1) (spkt pop))
                    (simulate (engine w1) (spkid pop)) 100 (Some "|")
                    (Some color);
        plt_xlabel "time (ms)"; plt_ylabel "cell id";
        plt_title "Network raster"]
       ++ (if show then [plt_show] else [])).
Proof.
  intros E.
  destruct (Pop_init_spike_vectors _ _ _ _ _ _ E) as (_ & _ & Ht & Hi).
  destruct (Pop_init_log _ _ _ _ _ _ E) as (Hplt & _).
  split.
  - eexists. split; [apply plot_raster_eq|]. cbv zeta. norm.
    by rewrite Ht, Hi, Hplt.
  - eexists _, _. split; [done|]. split; [apply plot_raster_eq|].
    cbv zeta. norm. rewrite !list_lookup_imap, Ht, Hi, Hplt. done.
Qed.

(** ** What the constructor leaves alone *)

(** X16.  [HHCell()] adds one cell, two sections and one [connect] call
    and nothing else: no point process, connection or vector, no plot
    command and no output, and the generator and [h.tstop] are as they
    were; the new cell has empty lists, no stimulus, no recording vector
    and no position.  The constructor of tutorial_4a.py does the same
    (it binds [synlist] only; the model keeps the lists it does not bind
    empty). *)
Theorem HHCell_init_allocates w :
  ∃ c w1 w1' o,
    HHCell_init w = Ok (c, w1) ∧ HHCell_init_4a w = Ok (c, w1') ∧
    c = length (heap w) ∧
    heap w1 = heap w ++ [o] ∧ heap w1' = heap w ++ [o] ∧
    synlist o = [] ∧ nclist o = [] ∧ nslist o = [] ∧
    stim o = None ∧ recorders o = None ∧ x o = None ∧ y o = None ∧
    length (secs (engine w1)) = length (secs (engine w)) + 2 ∧
    length (secs (engine w1')) = length (secs (engine w)) + 2 ∧
    length (topology (engine w1)) = length (topology (engine w)) + 1 ∧
    topology (engine w1') = topology (engine w1) ∧
    (∀ v, v = w1 ∨ v = w1' →
       pps (engine v) = pps (engine w) ∧
       netcons (engine v) = netcons (engine w) ∧
       vectors (engine v) = vectors (engine w) ∧
       tstop (engine v) = tstop (engine w) ∧
       rng v = rng w ∧ plt v = plt w ∧ stdout v = stdout w).
Proof.
  eexists _, _, _, (new_cell (length (secs (engine w)))).
  split; [apply HHCell_init_eq|]. split; [apply HHCell_init_4a_eq|].
  unfold HHCell_world. cbv zeta. norm.
  do 12 (split; [done|]). split; [lia|]. split; [done|].
  intros v [-> | ->]; by norm.
Qed.

(** ** The scripts *)

(** A world reached part-way through a script is named, and known by
    its stores. *)
Lemma name_world (P : World → Prop) W :
  (∀ w0,
     obs (secs (engine w0)) (secs (engine W)) →
     obs (topology (engine w0)) (topology (engine W)) →
     obs (pps (engine w0)) (pps (engine W)) →
     obs (netcons (engine w0)) (netcons (engine W)) →
     obs (vectors (engine w0)) (vectors (engine W)) →
     obs (tstop (engine w0)) (tstop (engine W)) →
     obs (heap w0) (heap W) → obs (rng w0) (rng W) →
     obs (plt w0) (plt W) → obs (stdout w0) (stdout W) →
     P w0) →
  P W.
Proof. intros HP. by apply HP. Qed.

Ltac use_obs :=
  repeat match goal with
         | H : obs ?a ?b |- context [?a] => rewrite (H : a = b)
         end.

Ltac obs_norm := norm; use_obs; norm.

Ltac name_world :=
  lazymatch goal with
  | |- returns ?m ?W ?Q =>
      apply (name_world (λ w0, returns m w0 Q) W);
      let w0 := fresh "w" in
      intros w0; obs_norm;
      repeat match goal with H : obs _ _ |- _ => clear H end;
      repeat match goal with w : World |- _ => clear w end;
      intros ? ? ? ? ? ? ? ? ? ?
  end.

Ltac script_step :=
  obs_norm;
  lazymatch goal with
  | |- returns HHCell_init _ _ =>
      eapply returns_eq; [apply HHCell_init_eq|]; unfold HHCell_world;
      name_world
  | |- returns HHCell_init_4a _ _ =>
      eapply returns_eq; [apply HHCell_init_4a_eq|]; cbv zeta; name_world
  | |- returns (set_recording _) _ _ =>
      eapply returns_eq; [eapply set_recording_eq; obs_norm; reflexivity|];
      cbv zeta; name_world
  | |- returns (add_current_stim _ _) _ _ =>
      eapply returns_eq; [eapply add_current_stim_eq; obs_norm; reflexivity|];
      name_world
  | |- returns (plot_voltage _ _ _ _) _ _ =>
      eapply returns_eq;
        [eapply plot_voltage_eq; [obs_norm; reflexivity | reflexivity..]|];
      cbv zeta; name_world
  | |- returns (deref _) _ _ =>
      eapply returns_deref; [obs_norm; reflexivity|]
  | |- returns h_run _ _ => name_world; apply returns_modify; name_world
  | _ => step
  end.

Ltac unfold_script_prims :=
  unfold h_PointProcess, pp_setattr, h_NetCon, nc_set_delay, nc_set_weight0,
    h_set_tstop, h_init, plt_call.

(** X17.  The script of tutorial_3_solution.py runs to the end from any
    world.  It leaves exactly two new connections: one from the middle of
    the soma of [preCell1] to [postSyn1] with weight 0.005 and delay 1,
    one from the middle of the soma of [preCell2] to [postSyn2] with
    weight 0.01 and delay 1; both synapses sit on the middle of the
    dendrite of [postCell] with [tau = 2], the first reversing at 0 and
    the second at -80; each source cell holds a stimulus starting at 10
    and the target cell holds none; [h.tstop] is 30. *)
Theorem tutorial_3_wiring w :
  ∃ r w',
    tutorial_3_solution w = Ok (r, w') ∧
    ∃ post pre1 pre2 syn1 syn2 st1 st2,
    heap w' !! t3_postCell r = Some post ∧
    heap w' !! t3_preCell1 r = Some pre1 ∧
    heap w' !! t3_preCell2 r = Some pre2 ∧
    netcons (engine w')
      = netcons (engine w)
        ++ [connection pre1 (t3_postSyn1 r) 1 0.005;
            connection pre2 (t3_postSyn2 r) 1 0.01] ∧
    t3_postSyn1 r ≠ t3_postSyn2 r ∧
    pps (engine w') !! t3_postSyn1 r = Some syn1 ∧
    pps (engine w') !! t3_postSyn2 r = Some syn2 ∧
    pp_kind syn1 = ExpSyn ∧ pp_seg syn1 = Seg (dend post) 0.5 ∧
    pp_attrs syn1 !! "e" = Some 0%Q ∧ pp_attrs syn1 !! "tau" = Some 2%Q ∧
    pp_kind syn2 = ExpSyn ∧ pp_seg syn2 = Seg (dend post) 0.5 ∧
    pp_attrs syn2 !! "e" = Some (-80)%Q ∧ pp_attrs syn2 !! "tau" = Some 2%Q ∧
    stimulus w' (t3_preCell1 r) = Some st1 ∧ is_current_stim st1 (dend pre1) 10 ∧
    stimulus w' (t3_preCell2 r) = Some st2 ∧ is_current_stim st2 (dend pre2) 10 ∧
    stimulus w' (t3_postCell r) = None ∧
    tstop (engine w') = Some 30%Q.
Proof.
  change (returns tutorial_3_solution w (λ r w',
    ∃ post pre1 pre2 syn1 syn2 st1 st2,
    heap w' !! t3_postCell r = Some post ∧
    heap w' !! t3_preCell1 r = Some pre1 ∧
    heap w' !! t3_preCell2 r = Some pre2 ∧
    netcons (engine w')
      = netcons (engine w)
        ++ [connection pre1 (t3_postSyn1 r) 1 0.005;
            connection pre2 (t3_postSyn2 r) 1 0.01] ∧
    t3_postSyn1 r ≠ t3_postSyn2 r ∧
    pps (engine w') !! t3_postSyn1 r = Some syn1 ∧
    pps (engine w') !! t3_postSyn2 r = Some syn2 ∧
    pp_kind syn1 = ExpSyn ∧ pp_seg syn1 = Seg (dend post) 0.5 ∧
    pp_attrs syn1 !! "e" = Some 0%Q ∧ pp_attrs syn1 !! "tau" = Some 2%Q ∧
    pp_kind syn2 = ExpSyn ∧ pp_seg syn2 = Seg (dend post) 0.5 ∧
    pp_attrs syn2 !! "e" = Some (-80)%Q ∧ pp_attrs syn2 !! "tau" = Some 2%Q ∧
    stimulus w' (t3_preCell1 r) = Some st1 ∧ is_current_stim st1 (dend pre1) 10 ∧
    stimulus w' (t3_preCell2 r) = Some st2 ∧ is_current_stim st2 (dend pre2) 10 ∧
    stimulus w' (t3_postCell r) = None ∧
    tstop (engine w') = Some 30%Q)).
  unfold tutorial_3_solution. unfold_script_prims. repeat script_step.
  unfold stimulus, connection, is_current_stim. cbn [t3_postCell t3_preCell1
    t3_preCell2 t3_postSyn1 t3_postSyn2].
  do 3 (obs_norm; cbn [mbind option_bind]).
  eexists _, _, _, _, _, _, _.
  do 3 (split; [reflexivity|]).
  cbn [soma dend new_cell set_stim set_t_vec set_dend_v_vec set_soma_v_vec].
  split; [reflexivity|]. split; [lia|]. do 2 (split; [reflexivity|]).
  cbn [pp_kind pp_seg pp_attrs]. do 8 (split; [done|]).
  do 2 (split; [reflexivity|]; cbn [pp_kind pp_seg pp_attrs];
        split; [split_and!; done|]).
  split; reflexivity.
Qed.

(** X18.  The script of tutorial_4a.py runs to the end from any world
    and wires nothing: no connection is made, no cell has a synapse, and
    the only point processes added are the two stimuli, starting at 20,
    of the two source cells; the third cell holds no stimulus.
    [h.tstop] is 80; three figures are opened and the last command is
    [plt.show()]. *)
Theorem tutorial_4a_unwired w :
  ∃ r w',
    tutorial_4a w = Ok (r, w') ∧
    ∃ pre1 pre2 post st1 st2,
    heap w' !! r.1.1 = Some pre1 ∧
    heap w' !! r.1.2 = Some pre2 ∧
    heap w' !! r.2 = Some post ∧
    netcons (engine w') = netcons (engine w) ∧
    synlist pre1 = [] ∧ synlist pre2 = [] ∧ synlist post = [] ∧
    pps (engine w') = pps (engine w) ++ [st1; st2] ∧
    stimulus w' r.1.1 = Some st1 ∧ is_current_stim st1 (dend pre1) 20 ∧
    stimulus w' r.1.2 = Some st2 ∧ is_current_stim st2 (dend pre2) 20 ∧
    stimulus w' r.2 = None ∧
    tstop (engine w') = Some 80%Q ∧
    length (filter is_figure (plt w'))
      = length (filter is_figure (plt w)) + 3 ∧
    last (plt w') = Some plt_show.
Proof.
  change (returns tutorial_4a w (λ r w',
    ∃ pre1 pre2 post st1 st2,
    heap w' !! r.1.1 = Some pre1 ∧
    heap w' !! r.1.2 = Some pre2 ∧
    heap w' !! r.2 = Some post ∧
    netcons (engine w') = netcons (engine w) ∧
    synlist pre1 = [] ∧ synlist pre2 = [] ∧ synlist post = [] ∧
    pps (engine w') = pps (engine w) ++ [st1; st2] ∧
    stimulus w' r.1.1 = Some st1 ∧ is_current_stim st1 (dend pre1) 20 ∧
    stimulus w' r.1.2 = Some st2 ∧ is_current_stim st2 (dend pre2) 20 ∧
    stimulus w' r.2 = None ∧
    tstop (engine w') = Some 80%Q ∧
    length (filter is_figure (plt w'))
      = length (filter is_figure (plt w)) + 3 ∧
    last (plt w') = Some plt_show)).
  unfold tutorial_4a. unfold_script_prims. repeat script_step.
  unfold stimulus, is_current_stim.
  do 3 (obs_norm; cbn [mbind option_bind]).
  eexists _, _, _, _, _.
  do 3 (split; [reflexivity|]).
  cbn [synlist soma dend new_cell set_stim set_t_vec set_dend_v_vec
       set_soma_v_vec].
  do 5 (split; [reflexivity|]).
  do 2 (split; [reflexivity|]; cbn [pp_kind pp_seg pp_attrs];
        split; [split_and!; done|]).
  do 2 (split; [reflexivity|]).
  split.
  - rewrite filter_app, length_app. f_equal.
  - by rewrite last_app.
Qed.

(** ** The script of tutorial_4b.py *)

Lemma position_extends w w' c p :
  extends w w' → position w c = Some p → position w' c = Some p.
Proof.
  intros (_ & _ & _ & _ & _ & Hh). unfold position.
  destruct (heap w !! c) as [o|] eqn:Ho; [|done].
  by rewrite (prefix_lookup_Some _ _ _ _ Ho Hh).
Qed.

Lemma positions_extends w w' (l : list nat) (ps : list (Q * Q)) :
  extends w w' →
  position w <$> l = Some <$> ps → position w' <$> l = Some <$> ps.
Proof.
  intros Ext Hp. rewrite <- Hp. apply list_fmap_ext. intros i c Hc.
  assert ((position w <$> l) !! i = (Some <$> ps) !! i) as Hi by by rewrite Hp.
  rewrite !list_lookup_fmap, Hc in Hi. simpl in Hi.
  destruct (ps !! i) as [p|]; [|done]. simpl in Hi.
  injection Hi as Hi. rewrite Hi. by eapply position_extends.
Qed.

(** X19.  The script of tutorial_4b.py runs to the end from any world.
    It returns a population of 100 and one of 40 that share no cell;
    the 140 connections it makes all lack a target, so no cell is wired
    to another; [h.tstop] is 1000.  Three figures are opened when none is
    open at the start: the one pyplot opens on its own for the first
    [plot_net], on which both populations are drawn, the raster, and the
    voltage of the first cell; when one is open at the start the two
    populations are drawn on it and two figures are opened.  The last
    command is [plt.show()]. *)
Theorem tutorial_4b_unwired w :
  ∃ r w',
    tutorial_4b w = Ok (r, w') ∧
    length (cells r.1) = 100 ∧ length (cells r.2) = 40 ∧
    (∀ c, c ∈ cells r.1 → c ∉ cells r.2) ∧
    (∃ ncs, netcons (engine w') = netcons (engine w) ++ ncs ∧
       length ncs = 140 ∧ ∀ k, k ∈ ncs → nc_target k = None) ∧
    tstop (engine w') = Some 1e3%Q ∧
    (∀ closes,
       figures_opened closes (plt w')
         = figures_opened closes (plt w)
           + (if figure_is_open closes (plt w) then 2 else 3)) ∧
    last (plt w') = Some plt_show.
Proof.
  set (ws := with_rng (λ _, seed 111) w).
  destruct (Pop_init_returns 100 [0.0; 1.0]%Q [0.2; 1]%Q 0.0 1.0 0.2 1 ws
              eq_refl eq_refl eq_refl eq_refl) as (popE & w1 & E1 & HP1).
  destruct (Pop_init_returns 40 [0.0; 1.0]%Q [0; 0.33]%Q 0.0 1.0 0 0.33 w1
              eq_refl eq_refl eq_refl eq_refl) as (popI & w2 & E2 & HP2).
  destruct (Pop_init_log _ _ _ _ _ _ E1) as (Hplt1 & _).
  destruct (Pop_init_log _ _ _ _ _ _ E2) as (Hplt2 & _).
  pose proof (Pop_post_netcons _ _ _ _ _ _ HP1) as Hnc1.
  pose proof (Pop_post_netcons _ _ _ _ _ _ HP2) as Hnc2.
  destruct (Pop_post_positions _ _ _ _ _ _ HP1)
    as (? & ? & ? & ? & _ & _ & _ & _ & Hpos1).
  destruct (Pop_post_positions _ _ _ _ _ _ HP2)
    as (? & ? & ? & ? & _ & _ & _ & _ & Hpos2).
  cbv zeta in Hpos1, Hpos2.
  assert (extends w1 w2) as Ext.
  { destruct HP2 as (?&?&?&?&_&_&_&_&HP2). cbv zeta in HP2.
    by destruct HP2 as (_ & _ & Ext & _). }
  apply (positions_extends _ _ _ _ Ext) in Hpos1.
  assert (cells popE !! 0 = Some (length (heap w))) as Hc0.
  { destruct HP1 as (?&?&?&?&_&_&_&_&HP1). cbv zeta in HP1.
    by destruct HP1 as (-> & _). }
  destruct (Pop_post_member _ _ _ _ _ _ _ _ HP1 Hc0)
    as (_ & _ & px & py & Hb0).
  apply (built_member_extends _ _ _ _ _ _ _ _ _ _ _ _ Ext) in Hb0.
  destruct Hb0 as (Ho0 & _).
  assert (cells popE = seq (length (heap w)) 100) as HcE.
  { destruct HP1 as (?&?&?&?&_&_&_&_&HP1). cbv zeta in HP1.
    by destruct HP1 as (-> & _). }
  assert (cells popI = seq (length (heap w1)) 40) as HcI.
  { destruct HP2 as (?&?&?&?&_&_&_&_&HP2). cbv zeta in HP2.
    by destruct HP2 as (-> & _). }
  assert (length (heap w) + 100 ≤ length (heap w1)) as Hlen.
  { assert (cells popE !! 99 = Some (length (heap w) + 99)) as Hc99
      by (rewrite HcE; apply lookup_seq; lia).
    destruct (Pop_post_member _ _ _ _ _ _ _ _ HP1 Hc99)
      as (_ & _ & qx & qy & Hq & _).
    apply lookup_lt_Some in Hq. lia. }
  change (returns tutorial_4b w (λ r w',
    length (cells r.1) = 100 ∧ length (cells r.2) = 40 ∧
    (∀ c, c ∈ cells r.1 → c ∉ cells r.2) ∧
    (∃ ncs, netcons (engine w') = netcons (engine w) ++ ncs ∧
       length ncs = 140 ∧ ∀ k, k ∈ ncs → nc_target k = None) ∧
    tstop (engine w') = Some 1e3%Q ∧
    (∀ closes,
       figures_opened closes (plt w')
         = figures_opened closes (plt w)
           + (if figure_is_open closes (plt w) then 2 else 3)) ∧
    last (plt w') = Some plt_show)).
  unfold tutorial_4b.
  apply returns_bind. eapply returns_eq; [exact E1|].
  apply returns_bind. eapply returns_eq; [exact E2|].
  apply returns_bind. eapply returns_eq; [by apply plot_net_eq|].
  apply returns_bind. eapply returns_eq; [by apply plot_net_eq|].
  unfold_script_prims. do 6 script_step.
  apply returns_bind. eapply returns_eq; [apply plot_raster_eq|]. cbv zeta.
  apply returns_bind.
  eapply returns_eq; [apply py_index_nonneg; [lia | exact Hc0]|].
  apply returns_bind.
  eapply returns_eq;
    [eapply plot_voltage_eq; [obs_norm; exact Ho0 | reflexivity..]|].
  cbv zeta. repeat script_step. obs_norm.
  rewrite HcE, HcI, !length_seq. do 2 (split; [done|]). split.
  { intros c [_ ?]%elem_of_seq [? _]%elem_of_seq. lia. }
  rewrite Hplt2, Hplt1, Hnc2, Hnc1. unfold ws. norm. split.
  { eexists. split; [reflexivity|]. split.
    - rewrite length_app, !length_fmap, !length_seq. done.
    - intros k [Hk|Hk]%elem_of_app;
        apply list_elem_of_fmap in Hk as (i & -> & _); done. }
  split; [done|]. split.
  - intros closes. unfold figures_opened, figure_is_open.
    rewrite pyplot_app. destruct (pyplot closes (plt w)) as [k cur].
    destruct cur; cbn [foldl pyplot_step fst snd]; lia.
  - by rewrite last_app.
Qed.

End Proofs.

(** * The properties on the concrete world *)

Lemma lcg_unit_interval : unit_interval.
Proof.
  intros s. cbn [random_sample lcg fst].
  pose proof (Z.mod_pos_bound (75 * s + 74) (Z.pos lcg_modulus) eq_refl).
  unfold Qle, Qlt, lcg_next. cbn [Qnum Qden]. lia.
Qed.

Example HHCell_init_runs :
  heap bare_cell_world = [new_cell 0] ∧
  topology (engine bare_cell_world) = [mkConnect 1 0 (Seg 0 1)].
Proof. by vm_compute. Qed.

(** The small population is what its constructor returns. *)
Lemma small_pop_built :
  Pop_init 3 [0.0; 1.0]%Q [0.2; 1]%Q empty_world
    = Ok (small_pop, small_pop_world).
Proof.
  unfold small_pop_world.
  destruct (Pop_init_returns 3 [0.0; 1.0]%Q [0.2; 1]%Q 0.0 1.0 0.2 1
              empty_world eq_refl eq_refl eq_refl eq_refl)
    as (pop & w1 & E & HP).
  rewrite E. cbn [world_of]. do 2 f_equal.
  destruct HP as (?&?&?&?&_&_&_&_&HP). cbv zeta in HP. by destruct HP as (-> & _).
Qed.

Example small_pop_runs :
  heap small_pop_world
    = [first_member;
       member_cell 2 5 1 (562400000 # 65536000) (561872000 # 6553600);
       member_cell 4 8 2 (2865800000 # 65536000) (460096000 # 6553600)] ∧
  netcons (engine small_pop_world)
    = [spike_detector 0 0 1 0; spike_detector 2 0 1 1; spike_detector 4 0 1 2] ∧
  stdout small_pop_world
    = ["Created cell 0"; "Created cell 1"; "Created cell 2"].
Proof. split_and!; vm_compute; reflexivity. Qed.

Example HHCell_init_4a_runs :
  match HHCell_init_4a empty_world with
  | Ok (c, w) =>
      o ← heap w !! c; d ← secs (engine w) !! dend o; sec_attrs d !! "nseg"
  | Raise _ => None
  end = Some 10%Q.
Proof. vm_compute. reflexivity. Qed.

Example tutorial_4b_runs :
  match tutorial_4b empty_world with
  | Ok ((popExc, popInh), w) =>
      Some (length (cells popExc), length (cells popInh), length (heap w),
            length (filter is_figure (plt w)), figures_opened true (plt w))
  | Raise _ => None
  end = Some (100, 40, 140, 2, 3).
Proof. vm_compute. reflexivity. Qed.

Lemma connect2pre_index_contract_witness :
  heap one_cell_world !! 0 = Some one_cell ∧
  (∃ w', connect2pre 0 0 0 2 1 one_cell_world = Ok (tt, w')) ∧
  connect2pre 0 0 1 2 1 one_cell_world = Raise IndexError ∧
  connect2pre 0 0 5 2 1 one_cell_world = Raise IndexError.
Proof.
  assert (heap one_cell_world !! 0 = Some one_cell) as Hc
    by (vm_compute; reflexivity).
  destruct (connect2pre_index_contract one_cell_world 0 0 one_cell one_cell
              2 1 Hc Hc) as [Hone Hbeyond].
  destruct (Hone 0 eq_refl) as ((w' & E & _) & _ & Hr & _).
  destruct (Hbeyond 5%Z ltac:(simpl; lia)) as [Hr5 _].
  split; [exact Hc|]. split; [exists w'; exact E|]. exact (conj Hr Hr5).
Defined.

Lemma connect2pre_negative_index_witness :
  heap one_cell_world !! 0 = Some one_cell ∧
  (∃ w', connect2pre 0 0 (-1) 2 1 one_cell_world = Ok (tt, w') ∧
         netcons (engine w')
           = netcons (engine one_cell_world) ++ [connection one_cell 0 2 1]).
Proof.
  assert (heap one_cell_world !! 0 = Some one_cell) as Hc
    by (vm_compute; reflexivity).
  destruct (connect2pre_negative_index one_cell_world 0 0 one_cell one_cell
              2 1 Hc Hc) as [Hlast _].
  destruct (Hlast ltac:(discriminate)) as (syn & Hs & Hw & _).
  injection Hs as <-. exact (conj Hc Hw).
Defined.

Lemma add_current_stim_overwrites_witness :
  heap bare_cell_world !! 0 = Some (new_cell 0) ∧
  pps_closed bare_cell_world ∧
  ∃ w1 w2 p o2,
    add_current_stim 0 10 bare_cell_world = Ok (tt, w1) ∧
    add_current_stim 0 20 w1 = Ok (tt, w2) ∧
    stimulus w2 0 = Some p ∧ is_current_stim p 1 20 ∧
    heap w2 !! 0 = Some o2 ∧ nslist o2 = [] ∧
    ¬ referred w2 (length (pps (engine bare_cell_world))).
Proof.
  assert (heap bare_cell_world !! 0 = Some (new_cell 0)) as Hc
    by (vm_compute; reflexivity).
  assert (references bare_cell_world = []) as Hr
    by (vm_compute; reflexivity).
  assert (pps_closed bare_cell_world) as Hcl
    by (unfold pps_closed; rewrite Hr; constructor).
  destruct (add_current_stim_overwrites bare_cell_world 0 (new_cell 0) Hc)
    as [_ Htwice].
  destruct (Htwice 10%Q 20%Q)
    as (w1 & w2 & p1 & p2 & o2 & E1 & E2 & _ & _ & Hp & Hs & Ho2 & _ & _ & _
        & Hns & _ & _ & _ & _ & _ & _ & _ & _ & _ & _ & _ & _ & _ & _ & _
        & _ & _ & Hrefs).
  destruct (Hrefs Hcl) as (Hfirst & _).
  split; [exact Hc|]. split; [exact Hcl|]. exists w1, w2, p2, o2.
  exact (conj E1 (conj E2 (conj Hs (conj Hp (conj Ho2 (conj Hns Hfirst)))))).
Defined.

Lemma topology_connected_once_witness :
  topology_closed empty_world ∧
  ∃ c w1 o, HHCell_init empty_world = Ok (c, w1) ∧ heap w1 !! c = Some o ∧
            times_connected (dend o) w1 = 1.
Proof.
  assert (topology_closed empty_world) as Hcl by constructor.
  destruct (topology_connected_once empty_world Hcl)
    as (c & w1 & o & E & Ho & _ & Hone & _).
  split; [exact Hcl|]. exists c, w1, o.
  exact (conj E (conj Ho Hone)).
Defined.

Lemma spike_id_is_creation_index_witness :
  Pop_init 3 [0.0; 1.0]%Q [0.2; 1]%Q empty_world
    = Ok (small_pop, small_pop_world) ∧
  sources_closed empty_world ∧
  (∃ o k, heap small_pop_world !! 2 = Some o ∧
          netcons (engine small_pop_world) !! k
            = Some (spike_detector (soma o) 0 1 2)) ∧
  vec_data <$>
    vectors (foldl (member_fires small_pop_world small_pop)
                   (engine small_pop_world) [(2, 5%Q); (0, 7%Q); (2, 9%Q)])
      !! spkid small_pop
    = Some [2; 0; 2]%Q.
Proof.
  pose proof small_pop_built as E.
  assert (sources_closed empty_world) as Hcl by constructor.
  destruct (spike_id_is_creation_index empty_world 3 _ _ _ _ E)
    as (_ & Hmem & Hrun).
  destruct (Hmem 2 2 eq_refl) as (o & Ho & (k & Hk) & _).
  assert (Forall (λ ev : nat * Q, ev.1 < 3) [(2, 5%Q); (0, 7%Q); (2, 9%Q)])
    as Hall by (repeat constructor).
  destruct (Hrun Hcl _ Hall) as (Hids & _).
  split; [exact E|]. split; [exact Hcl|].
  split; [exists o, k; exact (conj Ho Hk)|]. exact Hids.
Defined.

Lemma member_synapse_reversal_witness :
  Pop_init 3 [0.0; 1.0]%Q [0.2; 1]%Q empty_world
    = Ok (small_pop, small_pop_world) ∧
  ∃ o syn p, heap small_pop_world !! 1 = Some o ∧ synlist o = [syn] ∧
             pps (engine small_pop_world) !! syn = Some p ∧
             pp_attrs p !! "e" = Some 0%Q.
Proof.
  pose proof small_pop_built as E.
  assert (1 ∈ cells small_pop) as Hin
    by (apply (list_elem_of_lookup_2 _ 1); reflexivity).
  destruct (member_synapse_reversal empty_world 3 _ _ _ _ E 1 Hin)
    as (o & syn & p & de & Ho & Hs & Hp & _ & _ & _ & He & _).
  split; [exact E|]. exists o, syn, p.
  exact (conj Ho (conj Hs (conj Hp He))).
Defined.

Lemma position_fixed_at_creation_witness :
  Pop_init 3 [0.0; 1.0]%Q [0.2; 1]%Q empty_world
    = Ok (small_pop, small_pop_world) ∧
  ∃ p, position small_pop_world 0 = Some p ∧
    ∀ w2, exec_all [call_add_current_stim 0 10; call_tstop 30; call_init;
                    call_run; call_plot_voltage 0 "Cell voltage" None false]
            small_pop_world = Ok (tt, w2) →
          position w2 0 = Some p.
Proof.
  pose proof small_pop_built as E.
  assert (0 ∈ cells small_pop) as Hin
    by (apply (list_elem_of_lookup_2 _ 0); reflexivity).
  destruct (position_fixed_at_creation empty_world 3 _ _ _ _ E 0 Hin)
    as (_ & p & Hp & Hlater).
  split; [exact E|]. exists p. split; [exact Hp|].
  intros w2 E2. eapply Hlater; [|exact E2]. reflexivity.
Defined.

Lemma popExc_positions_witness :
  unit_interval ∧
  ∃ pop w1, make_popExc empty_world = Ok (pop, w1) ∧
            length (cells pop) = 100.
Proof.
  split; [exact lcg_unit_interval|].
  destruct (popExc_positions lcg_unit_interval empty_world)
    as (pop & w1 & E & Hlen & _).
  exists pop, w1. exact (conj E Hlen).
Defined.

Lemma plot_voltage_frame_witness :
  heap small_pop_world !! 0 = Some first_member ∧
  ∃ w', plot_voltage 0 "Cell voltage" None false small_pop_world
          = Ok (1, w') ∧
        model_state w' 0 = model_state small_pop_world 0.
Proof.
  assert (heap small_pop_world !! 0
            = Some first_member)
    as Hc by (vm_compute; reflexivity).
  destruct (plot_voltage_frame small_pop_world 0 _ "Cell voltage" None false Hc)
    as [Hrec _].
  destruct (Hrec 4 2 3 eq_refl eq_refl eq_refl) as (w' & E & _ & Hm & _).
  split; [exact Hc|]. exists w'. split; [exact E | exact Hm].
Defined.

(** C7 as stated fails: the synapse of a member reverses at 0, the
    dendrite it sits on at -65. *)
Lemma member_synapse_not_passive_reversal :
  ∃ o syn,
    cells small_pop !! 0 = Some 0 ∧
    heap small_pop_world !! 0 = Some o ∧ synlist o = [syn] ∧
    (pps (engine small_pop_world) !! syn ≫= λ p, pp_attrs p !! "e")
      = Some 0%Q ∧
    (secs (engine small_pop_world) !! dend o ≫= λ de, sec_attrs de !! "e_pas")
      = Some (-65)%Q ∧
    ¬ (0 == -65)%Q.
Proof.
  exists first_member, 0.
  split_and!; try (vm_compute; reflexivity). discriminate.
Qed.

(** C9 as stated fails: on a cell that was only constructed,
    [plot_voltage] raises and returns no handle. *)
Lemma plot_voltage_without_recording :
  heap bare_cell_world !! 0 = Some (new_cell 0) ∧
  plot_voltage 0 "Cell voltage" None true bare_cell_world
    = Raise AttributeError ∧
  ¬ ∃ fig w', plot_voltage 0 "Cell voltage" None true bare_cell_world
                = Ok (fig, w').
Proof.
  assert (heap bare_cell_world !! 0 = Some (new_cell 0)) as Hc
    by (vm_compute; reflexivity).
  pose proof (plot_voltage_unrecorded bare_cell_world 0 (new_cell 0)
                "Cell voltage" None true Hc (or_introl eq_refl)) as E.
  split; [exact Hc|]. split; [exact E|].
  intros (fig & w' & E'). rewrite E in E'. discriminate E'.
Qed.


Lemma connect2pre_without_synapse_witness :
  heap bare_cell_world !! 0 = Some (new_cell 0) ∧
  synlist (new_cell 0) = [] ∧
  connect2pre 0 0 0 2 1 bare_cell_world = Raise IndexError ∧
  connect2pre_4a 0 0 0 2 1 bare_cell_world = Raise IndexError.
Proof.
  assert (heap bare_cell_world !! 0 = Some (new_cell 0)) as Hc
    by (vm_compute; reflexivity).
  pose proof (connect2pre_without_synapse bare_cell_world 0 0 (new_cell 0)
                (new_cell 0) 0 2 1 Hc Hc eq_refl) as Hr.
  split; [exact Hc|]. split; [reflexivity|]. exact Hr.
Defined.

Lemma set_position_reads_back_witness :
  heap bare_cell_world !! 0 = Some (new_cell 0) ∧
  ∃ w', set_position 0 10 20 bare_cell_world = Ok (tt, w') ∧
        position w' 0 = Some (10, 20)%Q.
Proof.
  assert (heap bare_cell_world !! 0 = Some (new_cell 0)) as Hc
    by (vm_compute; reflexivity).
  destruct (set_position_reads_back bare_cell_world 0 (new_cell 0) 10 20 Hc)
    as (w' & o' & E & Hp & _).
  split; [exact Hc|]. exists w'. exact (conj E Hp).
Defined.

Lemma set_recording_then_plot_witness :
  heap bare_cell_world !! 0 = Some (new_cell 0) ∧
  ∃ w1 w2 fig,
    set_recording 0 bare_cell_world = Ok (tt, w1) ∧
    plot_voltage 0 "Cell voltage" None true w1 = Ok (fig, w2).
Proof.
  assert (heap bare_cell_world !! 0 = Some (new_cell 0)) as Hc
    by (vm_compute; reflexivity).
  destruct (set_recording_then_plot bare_cell_world 0 (new_cell 0)
              "Cell voltage" None true Hc)
    as (w1 & o1 & fig & w2 & E & _ & _ & _ & E2 & _).
  split; [exact Hc|]. exists w1, w2, fig. exact (conj E E2).
Defined.

Lemma plot_voltage_after_run_witness :
  heap small_pop_world !! 0 = Some first_member ∧
  recorders first_member = Some (2, 3, 4) ∧
  4 < length (vectors (engine small_pop_world)) ∧
  ∃ w1 w2 fig,
    h_run small_pop_world = Ok (tt, w1) ∧
    plot_voltage 0 "Cell voltage" None false w1 = Ok (fig, w2).
Proof.
  assert (heap small_pop_world !! 0 = Some first_member) as Hc
    by (vm_compute; reflexivity).
  assert (length (vectors (engine small_pop_world)) = 11) as Hlen
    by (vm_compute; reflexivity).
  assert (4 < length (vectors (engine small_pop_world))) as H4
    by (rewrite Hlen; lia).
  destruct (plot_voltage_after_run small_pop_world 0 first_member 2 3 4
              "Cell voltage" None false Hc eq_refl
              ltac:(rewrite Hlen; lia) ltac:(rewrite Hlen; lia) H4)
    as (w1 & w2 & fig & E1 & E2 & _).
  split; [exact Hc|]. split; [reflexivity|]. split; [exact H4|].
  exists w1, w2, fig. exact (conj E1 E2).
Defined.

Lemma plot_net_scatter_witness :
  (∃ ps w', position small_pop_world <$> cells small_pop = Some <$> ps ∧
            plot_net small_pop false small_pop_world = Ok (tt, w')) ∧
  position bare_cell_world 0 = None ∧
  plot_net (mkPop 0 1 [0]) false bare_cell_world = Raise AttributeError.
Proof.
  assert (position small_pop_world <$> cells small_pop
            = Some <$> [((7400000 # 65536000), (549248000 # 6553600));
                        ((562400000 # 65536000), (561872000 # 6553600));
                        ((2865800000 # 65536000), (460096000 # 6553600))])
    as Hp by (vm_compute; reflexivity).
  assert (heap bare_cell_world !! 0 = Some (new_cell 0)) as Hc
    by (vm_compute; reflexivity).
  assert (position bare_cell_world 0 = None) as Hn
    by (vm_compute; reflexivity).
  destruct (plot_net_scatter small_pop_world small_pop false) as [Hall _].
  destruct (Hall _ Hp) as (w' & E & _).
  destruct (plot_net_scatter bare_cell_world (mkPop 0 1 [0]) false)
    as [_ Hraise].
  split; [eexists _, w'; exact (conj Hp E)|]. split; [exact Hn|].
  apply Hraise.
  - intros c Hin%list_elem_of_singleton. subst c. rewrite Hc. by eexists.
  - exists 0. split; [apply list_elem_of_singleton; reflexivity | exact Hn].
Defined.

Lemma Pop_init_needs_two_bounds_witness :
  (∃ pop w1, Pop_init 3 [0.0; 1.0]%Q [0.2; 1]%Q empty_world = Ok (pop, w1)) ∧
  Pop_init 3 [0.5]%Q [0.2; 1]%Q empty_world = Raise IndexError.
Proof.
  destruct (Pop_init_needs_two_bounds 3 [0.0; 1.0]%Q [0.2; 1]%Q empty_world)
    as [Hret _].
  destruct (Pop_init_needs_two_bounds 3 [0.5]%Q [0.2; 1]%Q empty_world)
    as [_ Hraise].
  split.
  - apply Hret; simpl; lia.
  - apply Hraise. left. simpl. lia.
Defined.

Lemma Pop_init_zero_witness :
  2 ≤ length [0.0; 1.0]%Q ∧ 2 ≤ length [0.2; 1]%Q ∧
  ∃ w1, Pop_init 0 [0.0; 1.0]%Q [0.2; 1]%Q empty_world
          = Ok (mkPop 0 1 [], w1).
Proof.
  assert (2 ≤ length [0.0; 1.0]%Q) as Hx by (simpl; lia).
  assert (2 ≤ length [0.2; 1]%Q) as Hy by (simpl; lia).
  destruct (Pop_init_zero [0.0; 1.0]%Q [0.2; 1]%Q empty_world Hx Hy)
    as [E _].
  split; [exact Hx|]. split; [exact Hy|]. eexists. exact E.
Defined.

Lemma Pop_init_draws_witness :
  Pop_init 3 [0.0; 1.0]%Q [0.2; 1]%Q empty_world
    = Ok (small_pop, small_pop_world) ∧
  rng small_pop_world = advance 6 (rng empty_world).
Proof.
  pose proof small_pop_built as E.
  destruct (Pop_init_draws 3 _ _ empty_world _ _ E) as [Hr _].
  split; [exact E | exact Hr].
Defined.

Lemma Pop_members_apart_witness :
  Pop_init 3 [0.0; 1.0]%Q [0.2; 1]%Q empty_world
    = Ok (small_pop, small_pop_world) ∧
  length (cells small_pop) = 3 ∧ NoDup (cells small_pop).
Proof.
  pose proof small_pop_built as E.
  destruct (Pop_members_apart 3 _ _ empty_world _ _ E) as (Hl & Hn & _).
  split; [exact E|]. exact (conj Hl Hn).
Defined.

Lemma Pop_init_adds_only_witness :
  Pop_init 3 [0.0; 1.0]%Q [0.2; 1]%Q empty_world
    = Ok (small_pop, small_pop_world) ∧
  plt small_pop_world = plt empty_world ∧
  stdout small_pop_world = stdout empty_world ++ created_lines (seq 0 3).
Proof.
  pose proof small_pop_built as E.
  destruct (Pop_init_adds_only 3 _ _ empty_world _ _ E) as (_ & Hp & _ & Ho).
  split; [exact E|]. exact (conj Hp Ho).
Defined.

Lemma Pop_init_wires_nothing_witness :
  Pop_init 3 [0.0; 1.0]%Q [0.2; 1]%Q empty_world
    = Ok (small_pop, small_pop_world) ∧
  ∃ ncs, netcons (engine small_pop_world)
           = netcons (engine empty_world) ++ ncs ∧ length ncs = 3.
Proof.
  pose proof small_pop_built as E.
  destruct (Pop_init_wires_nothing 3 _ _ empty_world _ _ E)
    as ((ncs & Hn & Hl & _) & _).
  split; [exact E|]. exists ncs. exact (conj Hn Hl).
Defined.

Lemma plot_raster_of_population_witness :
  Pop_init 3 [0.0; 1.0]%Q [0.2; 1]%Q empty_world
    = Ok (small_pop, small_pop_world) ∧
  ∃ w2 w3, h_run small_pop_world = Ok (tt, w2) ∧
           plot_raster small_pop "blue" false w2 = Ok (tt, w3).
Proof.
  pose proof small_pop_built as E.
  destruct (plot_raster_of_population 3 _ _ empty_world _ _ "blue" false E)
    as (_ & w2 & w3 & E2 & E3 & _).
  split; [exact E|]. exists w2, w3. exact (conj E2 E3).
Defined.
